(** * VersionVault core: file objects, object store and diff engine

    A shallow embedding of [src/core/FileObject.{h,cpp}],
    [src/core/ObjectStore.{h,cpp}] and [src/core/DiffEngine.{h,cpp}].

    Conventions of the embedding:
    - [std::string] is [string]; [std::vector<char>] is [list ascii];
    - the file system is a finite map from path strings to file bytes,
      together with the set of paths that cannot be opened for writing;
    - a C++ function that may throw returns a value of [Exc]; functions that
      mutate an object or the file system return the new state next to the
      result, also when they throw;
    - directories are not represented: [fs::create_directories] changes
      nothing and never throws, and every path that exists is a regular
      file that can be read; the model follows the program on file systems
      where no path the program opens is a directory, which is so for the
      blob paths of digests in a store that holds blobs only;
    - paths are compared as strings; where a statement depends on two paths
      naming different files, it assumes that they are plain (relative,
      without doubled separators and without [.] and [..]); links are left
      aside;
    - [double] is binary64 as [SpecFloat] of the Standard Library specifies
      it, every operation rounded to the nearest value; [int] values are
      integers, and statements assume lengths below [INT_MAX], for which no
      [int] operation of the program overflows;
    - [ObjectStore::cleanup] takes the age of each file in hours as an
      argument, the clock being outside the program; the empty bodies of
      [compressObject] and [decompressObject] are left out. *)

From Stdlib Require Import ZArith Ascii String List Lia Bool.
From Stdlib Require Floats.SpecFloat.
From stdpp Require Import gmap strings list fin_maps.

Local Open Scope string_scope.
Local Open Scope list_scope.

(** ** SHA-256 (the OpenSSL primitive [SHA256] called by [computeHash])

    The digest function is not part of the repository; it is written here
    after FIPS 180-4 on 32-bit words held in [Z], so that hashes of concrete
    files can be evaluated. *)
Module Sha.
Local Open Scope Z_scope.

Definition mask32 (x : Z) : Z := Z.land x 4294967295.
Definition add32 (x y : Z) : Z := mask32 (x + y).
Definition rotr (n x : Z) : Z :=
  Z.lor (Z.shiftr x n) (mask32 (Z.shiftl x (32 - n))).
Definition Ch (x y z : Z) : Z :=
  Z.lxor (Z.land x y) (Z.land (Z.lxor x 4294967295) z).
Definition Maj (x y z : Z) : Z :=
  Z.lxor (Z.lxor (Z.land x y) (Z.land x z)) (Z.land y z).
Definition bsig0 (x : Z) : Z := Z.lxor (Z.lxor (rotr 2 x) (rotr 13 x)) (rotr 22 x).
Definition bsig1 (x : Z) : Z := Z.lxor (Z.lxor (rotr 6 x) (rotr 11 x)) (rotr 25 x).
Definition ssig0 (x : Z) : Z := Z.lxor (Z.lxor (rotr 7 x) (rotr 18 x)) (Z.shiftr x 3).
Definition ssig1 (x : Z) : Z := Z.lxor (Z.lxor (rotr 17 x) (rotr 19 x)) (Z.shiftr x 10).

(** The round constants and the initial hash value are the first 32 bits of
    the fractional parts of the cube roots of the first 64 primes and of the
    square roots of the first 8 primes. *)
Definition is_prime (n : nat) : bool :=
  forallb (fun d => negb (n mod d =? 0)%nat) (seq 2 (n - 2)).

Definition first_primes (count : nat) : list Z :=
  map Z.of_nat (firstn count (filter is_prime (seq 2 400))).

(** [floor (2^32 * p^(1/power))] by bisection on 36 bits, reduced to 32. *)
Definition root_bits (power p : Z) : Z :=
  let target := p * 2 ^ (32 * power) in
  mask32 (fold_left (fun r b => if (r + 2 ^ b) ^ power <=? target then r + 2 ^ b else r)
                    (map Z.of_nat (rev (seq 0 36))) 0).

Definition K : list Z := Eval vm_compute in map (root_bits 3) (first_primes 64).

(** The eight working variables [a..h]. *)
Record regs := Regs { ra : Z; rb : Z; rc : Z; rd : Z; re : Z; rf : Z; rg : Z; rh : Z }.

Definition H0 : regs :=
  Eval vm_compute in
    match map (root_bits 2) (first_primes 8) with
    | [a; b; c; d; e; f; g; h] => Regs a b c d e f g h
    | _ => Regs 0 0 0 0 0 0 0 0
    end.

(** Padding: a [0x80] byte, zeros up to 56 modulo 64, the bit length on
    eight big-endian bytes. *)
Definition be_bytes (count : nat) (x : Z) : list Z :=
  map (fun i => Z.land (Z.shiftr x (8 * Z.of_nat i)) 255) (rev (seq 0 count)).

Definition pad (msg : list Z) : list Z :=
  let len := Z.of_nat (length msg) in
  msg ++ [128] ++ repeat 0 (Z.to_nat ((55 - len) mod 64)) ++ be_bytes 8 (8 * len).

Fixpoint words (fuel : nat) (bytes : list Z) : list Z :=
  match fuel, bytes with
  | S fuel', b0 :: b1 :: b2 :: b3 :: rest =>
      (b0 * 16777216 + b1 * 65536 + b2 * 256 + b3) :: words fuel' rest
  | _, _ => []
  end.

(** Message schedule, most recent word first. *)
Fixpoint schedule (count : nat) (wrev : list Z) : list Z :=
  match count with
  | O => wrev
  | S count' =>
      let w := add32 (add32 (add32 (ssig1 (nth 1 wrev 0)) (nth 6 wrev 0))
                            (ssig0 (nth 14 wrev 0))) (nth 15 wrev 0) in
      schedule count' (w :: wrev)
  end.

Definition round (s : regs) (kw : Z * Z) : regs :=
  let t1 := add32 (add32 (add32 (add32 (rh s) (bsig1 (re s)))
                                (Ch (re s) (rf s) (rg s))) (fst kw)) (snd kw) in
  let t2 := add32 (bsig0 (ra s)) (Maj (ra s) (rb s) (rc s)) in
  Regs (add32 t1 t2) (ra s) (rb s) (rc s) (add32 (rd s) t1) (re s) (rf s) (rg s).

Definition compress (h : regs) (block : list Z) : regs :=
  let w := rev (schedule 48 (rev block)) in
  let s := fold_left round (combine K w) h in
  Regs (add32 (ra h) (ra s)) (add32 (rb h) (rb s)) (add32 (rc h) (rc s))
       (add32 (rd h) (rd s)) (add32 (re h) (re s)) (add32 (rf h) (rf s))
       (add32 (rg h) (rg s)) (add32 (rh h) (rh s)).

Fixpoint blocks (fuel : nat) (ws : list Z) (h : regs) : regs :=
  match fuel, ws with
  | S fuel', _ :: _ => blocks fuel' (skipn 16 ws) (compress h (firstn 16 ws))
  | _, _ => h
  end.

Definition digest_bytes (h : regs) : list Z :=
  be_bytes 4 (ra h) ++ be_bytes 4 (rb h) ++ be_bytes 4 (rc h) ++ be_bytes 4 (rd h) ++
  be_bytes 4 (re h) ++ be_bytes 4 (rf h) ++ be_bytes 4 (rg h) ++ be_bytes 4 (rh h).

Definition sha256 (msg : list Z) : list Z :=
  let p := pad msg in
  let ws := words (length p) p in
  digest_bytes (blocks (length ws) ws H0).

End Sha.

(** [SHA256(data, len, digest)]: the 32 digest bytes of a byte sequence. *)
Definition SHA256 (content : list ascii) : list ascii :=
  map (fun z => ascii_of_N (Z.to_N z))
      (Sha.sha256 (map (fun c => Z.of_N (N_of_ascii c)) content)).

Arguments SHA256 content : simpl never.

Definition SHA256_DIGEST_LENGTH : nat := 32.

(** One digest byte through [std::hex << std::setw(2) << std::setfill('0')]:
    two lower-case hexadecimal digits. *)
Definition hexDigit (n : N) : ascii :=
  if (n <? 10)%N then ascii_of_N (48 + n) else ascii_of_N (87 + n).

Definition hexByte (b : ascii) : string :=
  let n := N_of_ascii b in
  String (hexDigit (n / 16)) (String (hexDigit (n mod 16)) EmptyString).

Fixpoint hexString (digest : list ascii) : string :=
  match digest with
  | [] => ""
  | b :: rest => hexByte b +:+ hexString rest
  end.
Arguments hexString digest : simpl never.

(** ** Exceptions and the file system *)

(** The outcome of a call that may throw ([std::runtime_error],
    [std::out_of_range]); [Throw] carries the [what()] message. *)
Inductive Exc (A : Type) : Type :=
  | Ok (value : A)
  | Throw (what : string).
Arguments Ok {A} value.
Arguments Throw {A} what.

(** Files by path, and the paths an [std::ofstream] cannot open (closed by
    their permissions: the set does not change when directories are
    created).  Reading succeeds exactly on the paths that exist. *)
Record FileSystem : Type := mkFileSystem {
  files : gmap string (list ascii);
  unwritable : gset string
}.

(** [std::ifstream file(path)] followed by reading the whole file. *)
Definition ifstream_read (fs : FileSystem) (path : string) : option (list ascii) :=
  files fs !! path.

(** [std::ofstream file(path); file.write(data); file.close()]: [None] when
    the stream does not open, otherwise the file is replaced by [data]. *)
Definition ofstream_write (fs : FileSystem) (path : string) (bytes : list ascii)
  : option FileSystem :=
  if decide (path ∈ unwritable fs) then None
  else Some (mkFileSystem (<[path := bytes]> (files fs)) (unwritable fs)).

(** [fs::exists(path)], on paths that name no directory. *)
Definition fs_exists (fs : FileSystem) (path : string) : bool :=
  bool_decide (is_Some (files fs !! path)).

(** ** FileObject.h / FileObject.cpp *)

(** The members of the base class [FileObject]. *)
Record FileObjectBase : Type := mkBase {
  filepath : string;
  hash : string;
  fileSize : Z;
  isModified : bool
}.

Record TextFile : Type := mkText {
  textBase : FileObjectBase;
  lines : list string;
  encoding : string
}.

Record BinaryFile : Type := mkBinary {
  binaryBase : FileObjectBase;
  data : list ascii
}.

(** A [FileObject*] (or [unique_ptr<FileObject>]) points to one of the two
    concrete classes. *)
Inductive FileObject : Type :=
  | AsText (t : TextFile)
  | AsBinary (b : BinaryFile).

Definition base (obj : FileObject) : FileObjectBase :=
  match obj with
  | AsText t => textBase t
  | AsBinary b => binaryBase b
  end.

Definition set_base (obj : FileObject) (fb : FileObjectBase) : FileObject :=
  match obj with
  | AsText t => AsText (mkText fb (lines t) (encoding t))
  | AsBinary b => AsBinary (mkBinary fb (data b))
  end.

Definition getPath (obj : FileObject) : string := filepath (base obj).
Definition getSize (obj : FileObject) : Z := fileSize (base obj).
Definition isBinary (obj : FileObject) : bool :=
  match obj with AsText _ => false | AsBinary _ => true end.

(** Constructors: [filepath(path), fileSize(0), isModified(false)], [hash]
    default-constructed (empty). *)
Definition FileObject_new (path : string) : FileObjectBase :=
  mkBase path "" 0 false.
Definition TextFile_new (path : string) : TextFile :=
  mkText (FileObject_new path) [] "UTF-8".
Definition BinaryFile_new (path : string) : BinaryFile :=
  mkBinary (FileObject_new path) [].

Definition newline : ascii := "010"%char.

(** [for (line : lines) ss << line << "\n"; ss.str()]. *)
Definition joinLines (ls : list string) : string :=
  fold_left (fun ss line => ss +:+ line +:+ String newline "") ls "".

Definition TextFile_computeHash (t : TextFile) : string :=
  let content := joinLines (lines t) in
  hexString (SHA256 (list_ascii_of_string content)).

Definition BinaryFile_computeHash (b : BinaryFile) : string :=
  hexString (SHA256 (data b)).

(** The virtual call [computeHash()]. *)
Definition computeHash (obj : FileObject) : string :=
  match obj with
  | AsText t => TextFile_computeHash t
  | AsBinary b => BinaryFile_computeHash b
  end.

(** [FileObject::getHash]: returns the digest and the object with its cache
    updated. *)
Definition getHash (obj : FileObject) : string * FileObject :=
  let fb := base obj in
  if (String.eqb (hash fb) "" || isModified fb)%bool then
    let h := computeHash obj in
    (h, set_base obj (mkBase (filepath fb) h (fileSize fb) false))
  else (hash fb, obj).

(** [operator==] and [operator!=] (the cache update of both sides, done
    through [const_cast], is dropped here with the temporaries). *)
Definition FileObject_eq (a b : FileObject) : bool :=
  String.eqb (fst (getHash a)) (fst (getHash b)).
Definition FileObject_ne (a b : FileObject) : bool := negb (FileObject_eq a b).

(** [while (std::getline(file, line)) lines.push_back(line)] over the bytes
    of the stream: [line] holds the characters extracted so far and
    [extracted] says whether the current [getline] call has consumed any
    character.  At end of file a call that extracted nothing fails and ends
    the loop; one that extracted characters delivers a last line. *)
Fixpoint getlines (line : string) (extracted : bool) (stream : list ascii)
  : list string :=
  match stream with
  | [] => if extracted then [line] else []
  | c :: rest =>
      if Ascii.eqb c newline then line :: getlines "" false rest
      else getlines (line +:+ String c "") true rest
  end.

Definition TextFile_readContent (t : TextFile) (fs : FileSystem)
  : TextFile * Exc (list ascii) :=
  match ifstream_read fs (filepath (textBase t)) with
  | None => (t, Throw ("Cannot open file: " +:+ filepath (textBase t)))
  | Some bytes =>
      let ls := getlines "" false bytes in
      (mkText (textBase t) ls (encoding t),
       Ok (list_ascii_of_string (joinLines ls)))
  end.

(** The stream is opened (and the file truncated and rewritten) before
    [isModified] is set; [lines] is not assigned. *)
Definition TextFile_writeContent (t : TextFile) (fs : FileSystem) (bytes : list ascii)
  : TextFile * FileSystem * Exc unit :=
  match ofstream_write fs (filepath (textBase t)) bytes with
  | None => (t, fs, Throw ("Cannot write to file: " +:+ filepath (textBase t)))
  | Some fs' =>
      let fb := textBase t in
      (mkText (mkBase (filepath fb) (hash fb) (fileSize fb) true) (lines t) (encoding t),
       fs', Ok tt)
  end.

(** [getLines]: loads through [readContent] when [lines] is empty; an
    exception of [readContent] propagates. *)
Definition TextFile_getLines (t : TextFile) (fs : FileSystem)
  : TextFile * Exc (list string) :=
  match lines t with
  | [] =>
      match TextFile_readContent t fs with
      | (t', Ok _) => (t', Ok (lines t'))
      | (t', Throw e) => (t', Throw e)
      end
  | _ :: _ => (t, Ok (lines t))
  end.

Definition TextFile_setLines (t : TextFile) (newLines : list string) : TextFile :=
  let fb := textBase t in
  mkText (mkBase (filepath fb) (hash fb) (fileSize fb) true) newLines (encoding t).

Definition TextFile_getLineCount (t : TextFile) : nat := length (lines t).

Definition BinaryFile_readContent (b : BinaryFile) (fs : FileSystem)
  : BinaryFile * Exc (list ascii) :=
  match ifstream_read fs (filepath (binaryBase b)) with
  | None => (b, Throw ("Cannot open file: " +:+ filepath (binaryBase b)))
  | Some bytes =>
      let fb := binaryBase b in
      (mkBinary (mkBase (filepath fb) (hash fb) (Z.of_nat (length bytes)) (isModified fb))
                bytes,
       Ok bytes)
  end.

Definition BinaryFile_writeContent (b : BinaryFile) (fs : FileSystem) (content : list ascii)
  : BinaryFile * FileSystem * Exc unit :=
  match ofstream_write fs (filepath (binaryBase b)) content with
  | None => (b, fs, Throw ("Cannot write to file: " +:+ filepath (binaryBase b)))
  | Some fs' =>
      let fb := binaryBase b in
      (mkBinary (mkBase (filepath fb) (hash fb) (fileSize fb) true) content, fs', Ok tt)
  end.

(** The virtual calls [readContent()] and [writeContent(data)]. *)
Definition readContent (obj : FileObject) (fs : FileSystem)
  : FileObject * Exc (list ascii) :=
  match obj with
  | AsText t => let '(t', r) := TextFile_readContent t fs in (AsText t', r)
  | AsBinary b => let '(b', r) := BinaryFile_readContent b fs in (AsBinary b', r)
  end.

Definition writeContent (obj : FileObject) (fs : FileSystem) (bytes : list ascii)
  : FileObject * FileSystem * Exc unit :=
  match obj with
  | AsText t => let '(t', fs', r) := TextFile_writeContent t fs bytes in (AsText t', fs', r)
  | AsBinary b => let '(b', fs', r) := BinaryFile_writeContent b fs bytes in (AsBinary b', fs', r)
  end.

(** [FileFactory::detectBinary]: a NUL among the first 512 bytes; a file
    that does not open counts as text. *)
Definition FileFactory_detectBinary (fs : FileSystem) (path : string) : bool :=
  match ifstream_read fs path with
  | None => false
  | Some bytes => existsb (fun c => Ascii.eqb c zero) (firstn 512 bytes)
  end.

Definition FileFactory_createFileObject (fs : FileSystem) (path : string) : FileObject :=
  if FileFactory_detectBinary fs path then AsBinary (BinaryFile_new path)
  else AsText (TextFile_new path).

(** ** ObjectStore.h / ObjectStore.cpp *)

(** [StoragePool<T>]: a [std::map<std::string, T>] and its capacity. *)
Record StoragePool (T : Type) : Type := mkPool {
  pool : gmap string T;
  maxSize : nat
}.
Arguments mkPool {T} pool maxSize.
Arguments pool {T} _.
Arguments maxSize {T} _.

Definition StoragePool_new {T : Type} (max : nat) : StoragePool T := mkPool ∅ max.

(** [pool.begin()]: the entry with the least key in the order of
    [std::less<std::string>], the lexicographic order on unsigned bytes. *)
Definition least_key (keys : list string) : option string :=
  foldr (fun k least =>
           match least with
           | None => Some k
           | Some k' => if String.ltb k k' then Some k else Some k'
           end) None keys.

Definition pool_begin {T : Type} (m : gmap string T) : option string :=
  least_key (elements (dom m)).

(** [StoragePool::store].  [pool.erase(pool.begin())] on an empty map is
    undefined in C++; it is reached only with [maxSize = 0], which
    [ObjectStore] never uses (its pool has capacity 2000), and the map is
    then left as it is here. *)
Definition StoragePool_store {T : Type} (p : StoragePool T) (key : string) (value : T)
  : StoragePool T :=
  let erased :=
    if (maxSize p <=? size (pool p))%nat then
      match pool_begin (pool p) with
      | Some k => delete k (pool p)
      | None => pool p
      end
    else pool p in
  mkPool (<[key := value]> erased) (maxSize p).

(** [StoragePool::retrieve(key, value)]: the flag and the out-parameter. *)
Definition StoragePool_retrieve {T : Type} (p : StoragePool T) (key : string) (value : T)
  : bool * T :=
  match pool p !! key with
  | Some v => (true, v)
  | None => (false, value)
  end.

Definition StoragePool_contains {T : Type} (p : StoragePool T) (key : string) : bool :=
  bool_decide (is_Some (pool p !! key)).

Definition StoragePool_clear {T : Type} (p : StoragePool T) : StoragePool T :=
  mkPool ∅ (maxSize p).

Definition StoragePool_size {T : Type} (p : StoragePool T) : nat := size (pool p).

Record ObjectStore : Type := mkStore {
  storePath : string;
  objectPool : StoragePool (list ascii);
  hashToPath : gmap string string
}.

(** The constructor: [storePath(path), objectPool(2000)]; directories are
    not represented in the file system, so [create_directories] leaves it
    as it is. *)
Definition ObjectStore_new (path : string) : ObjectStore :=
  mkStore path (StoragePool_new 2000) ∅.

(** [getInstance]: the singleton is built on the first call only. *)
Definition ObjectStore_getInstance (instance : option ObjectStore) (path : string)
  : ObjectStore :=
  match instance with
  | Some st => st
  | None => ObjectStore_new (if String.eqb path "" then ".vv/objects" else path)
  end.

(** [getObjectPath]: [hash.substr(2)] throws [std::out_of_range] when the
    hash has fewer than two characters; the message is the one libstdc++
    builds from the position and the size. *)
Definition ObjectStore_getObjectPath (st : ObjectStore) (h : string) : Exc string :=
  let dir := substring 0 2 h in
  if (String.length h <? 2)%nat then
    Throw ("basic_string::substr: __pos (which is 2) > this->size() (which is "
           +:+ (if (String.length h =? 0)%nat then "0" else "1") +:+ ")")
  else
    let file := substring 2 (String.length h - 2) h in
    Ok (storePath st +:+ "/" +:+ dir +:+ "/" +:+ file).

Definition ObjectStore_hasObject (st : ObjectStore) (fs : FileSystem) (h : string)
  : Exc bool :=
  if StoragePool_contains (objectPool st) h then Ok true
  else
    match ObjectStore_getObjectPath st h with
    | Throw e => Throw e
    | Ok objPath => Ok (fs_exists fs objPath)
    end.

(** [storeObject]: the store, the file system and the object after the call,
    and the returned hash or the exception.  The pool is updated before the
    blob is written, so it keeps the entry when the write throws. *)
Definition ObjectStore_storeObject
    (st : ObjectStore) (fs : FileSystem) (obj : FileObject)
  : ObjectStore * FileSystem * FileObject * Exc string :=
  let '(h, obj1) := getHash obj in
  match ObjectStore_hasObject st fs h with
  | Throw e => (st, fs, obj1, Throw e)
  | Ok true => (st, fs, obj1, Ok h)
  | Ok false =>
      match readContent obj1 fs with
      | (obj2, Throw e) => (st, fs, obj2, Throw e)
      | (obj2, Ok content) =>
          let st1 := mkStore (storePath st)
                             (StoragePool_store (objectPool st) h content)
                             (hashToPath st) in
          match ObjectStore_getObjectPath st h with
          | Throw e => (st1, fs, obj2, Throw e)
          | Ok objPath =>
              match ofstream_write fs objPath content with
              | None =>
                  (st1, fs, obj2, Throw ("Cannot create object file: " +:+ objPath))
              | Some fs1 =>
                  (mkStore (storePath st1) (objectPool st1)
                           (<[h := getPath obj2]> (hashToPath st1)),
                   fs1, obj2, Ok h)
              end
          end
      end
  end.

(** The tail shared by both branches of [retrieveObject]: look up the origin
    path, build the object with the factory and write the bytes through it. *)
Definition ObjectStore_rebuild
    (st : ObjectStore) (fs : FileSystem) (h : string) (content : list ascii)
  : ObjectStore * FileSystem * Exc (option FileObject) :=
  let path := match hashToPath st !! h with Some p => p | None => "temp" end in
  let obj := FileFactory_createFileObject fs path in
  match writeContent obj fs content with
  | (obj', fs', Ok _) => (st, fs', Ok (Some obj'))
  | (_, fs', Throw e) => (st, fs', Throw e)
  end.

(** [retrieveObject]: [Ok None] is the [nullptr] result. *)
Definition ObjectStore_retrieveObject
    (st : ObjectStore) (fs : FileSystem) (h : string)
  : ObjectStore * FileSystem * Exc (option FileObject) :=
  match StoragePool_retrieve (objectPool st) h [] with
  | (true, content) => ObjectStore_rebuild st fs h content
  | (false, _) =>
      match ObjectStore_getObjectPath st h with
      | Throw e => (st, fs, Throw e)
      | Ok objPath =>
          if negb (fs_exists fs objPath) then (st, fs, Ok None)
          else
            match ifstream_read fs objPath with
            | None => (st, fs, Ok None)
            | Some content =>
                let st1 := mkStore (storePath st)
                                   (StoragePool_store (objectPool st) h content)
                                   (hashToPath st) in
                ObjectStore_rebuild st1 fs h content
            end
      end
  end.

(** [getStorageSize]: the sizes of the regular files below [storePath].
    For plain paths the files inside the directory [root] are those whose
    path starts with [root] and a separator. *)
Definition below (root path : string) : bool := String.prefix (root +:+ "/") path.

Definition ObjectStore_getStorageSize (st : ObjectStore) (fs : FileSystem) : nat :=
  foldr (fun entry totalSize =>
           if below (storePath st) entry.1 then (length entry.2 + totalSize)%nat
           else totalSize)
        0%nat (map_to_list (files fs)).

(** ** DiffEngine.h / DiffEngine.cpp *)

Inductive ChangeType : Type := ADDED | REMOVED | MODIFIED | UNCHANGED.

Record Change : Type := mkChange {
  type : ChangeType;
  path : string;
  oldHash : string;
  newHash : string
}.

(** The two constructors of [Change]; the short one leaves both hashes
    default-constructed. *)
Definition Change2 (t : ChangeType) (p : string) : Change := mkChange t p "" "".
Definition Change4 (t : ChangeType) (p oh nh : string) : Change := mkChange t p oh nh.

(** The concrete classes behind a [DiffAlgorithm*]: the two the program
    defines.  An engine whose pointer is null or points to a class defined
    elsewhere is outside the model. *)
Inductive DiffAlgorithm : Type := MyersDiff | SimpleDiff.

Record DiffEngine : Type := mkEngine {
  algorithm : DiffAlgorithm;
  showContext : bool;
  contextLines : Z
}.

Definition DiffEngine_new : DiffEngine := mkEngine SimpleDiff true 3.

Definition DiffEngine_setAlgorithm (e : DiffEngine) (algo : DiffAlgorithm) : DiffEngine :=
  mkEngine algo (showContext e) (contextLines e).

Definition DiffEngine_setContextLines (e : DiffEngine) (n : Z) : DiffEngine :=
  mkEngine (algorithm e) (showContext e) n.

(** [compareFiles]: a null pointer is [None].  The objects are returned with
    the hash caches that [getHash] filled. *)
Definition DiffEngine_compareFiles (oldFile newFile : option FileObject)
  : Change * option FileObject * option FileObject :=
  match oldFile, newFile with
  | None, None => (Change2 UNCHANGED "", None, None)
  | None, Some n =>
      let '(nh, n') := getHash n in
      (Change4 ADDED (getPath n) "" nh, None, Some n')
  | Some o, None =>
      let '(oh, o') := getHash o in
      (Change4 REMOVED (getPath o) oh "", Some o', None)
  | Some o, Some n =>
      let '(oh, o') := getHash o in
      let '(nh, n') := getHash n in
      if String.eqb oh nh then (Change4 UNCHANGED (getPath o) oh nh, Some o', Some n')
      else (Change4 MODIFIED (getPath o) oh nh, Some o', Some n')
  end.

(** The loop of [SimpleDiff::computeDiff] on the lines still ahead of the
    two indices: [olds] is [oldLines] from [i] on, [news] is [newLines] from
    [j] on.  Every iteration advances at least one index. *)
Fixpoint diffLoop (olds : list string) : list string -> list string :=
  fix diffNew (news : list string) : list string :=
    match olds, news with
    | [], [] => []
    | o :: olds', [] => ("-" +:+ o) :: diffLoop olds' []
    | [], n :: news' => ("+" +:+ n) :: diffNew news'
    | o :: olds', n :: news' =>
        if String.eqb o n then (" " +:+ o) :: diffLoop olds' news'
        else if String.ltb o n then ("-" +:+ o) :: diffLoop olds' news
        else ("+" +:+ n) :: diffNew news'
    end.

Definition SimpleDiff_computeDiff (oldLines newLines : list string) : list string :=
  "--- old" :: "+++ new" :: diffLoop oldLines newLines.

(** [MyersDiff::findSnakes] returns an empty vector and
    [MyersDiff::computeDiff] delegates to a [SimpleDiff]. *)
Definition MyersDiff_computeDiff (oldLines newLines : list string) : list string :=
  SimpleDiff_computeDiff oldLines newLines.

(** The virtual call [algorithm->computeDiff]. *)
Definition computeDiff (algo : DiffAlgorithm) (oldLines newLines : list string)
  : list string :=
  match algo with
  | MyersDiff => MyersDiff_computeDiff oldLines newLines
  | SimpleDiff => SimpleDiff_computeDiff oldLines newLines
  end.

Definition DiffEngine_generateUnifiedDiff
    (e : DiffEngine) (fs : FileSystem) (oldFile newFile : option TextFile)
  : Exc (list string) :=
  match oldFile, newFile with
  | Some o, Some n =>
      match TextFile_getLines o fs with
      | (_, Throw err) => Throw err
      | (_, Ok oldLines) =>
          match TextFile_getLines n fs with
          | (_, Throw err) => Throw err
          | (_, Ok newLines) => Ok (computeDiff (algorithm e) oldLines newLines)
          end
      end
  | _, _ => Ok []
  end.

(** The table [dp] of [calculateSimilarity], a vector of rows read and
    written by index. *)
Definition dp_get (dp : list (list Z)) (i j : nat) : Z := nth j (nth i dp []) 0%Z.

Definition dp_set (dp : list (list Z)) (i j : nat) (v : Z) : list (list Z) :=
  <[i := <[j := v]> (nth i dp [])]> dp.

(** [text[k]] for [k] below the length. *)
Definition char_at (text : string) (k : nat) : ascii :=
  match String.get k text with
  | Some c => c
  | None => zero
  end.

(** [std::min({a, b, c})]. *)
Definition min3 (a b c : Z) : Z := Z.min (Z.min a b) c.

Definition dp_cell (text1 text2 : string) (dp : list (list Z)) (i j : nat) : Z :=
  if Ascii.eqb (char_at text1 (i - 1)) (char_at text2 (j - 1))
  then dp_get dp (i - 1) (j - 1)
  else (1 + min3 (dp_get dp (i - 1) j) (dp_get dp i (j - 1)) (dp_get dp (i - 1) (j - 1)))%Z.

(** The table after the three loops; [m] and [n] are the two lengths. *)
Definition dp_table (text1 text2 : string) : list (list Z) :=
  let m := String.length text1 in
  let n := String.length text2 in
  let dp0 := repeat (repeat 0%Z (n + 1)) (m + 1) in
  let dp1 := fold_left (fun dp i => dp_set dp i 0 (Z.of_nat i)) (seq 0 (m + 1)) dp0 in
  let dp2 := fold_left (fun dp j => dp_set dp 0 j (Z.of_nat j)) (seq 0 (n + 1)) dp1 in
  fold_left
    (fun dp i =>
       fold_left (fun dp' j => dp_set dp' i j (dp_cell text1 text2 dp' i j)) (seq 1 n) dp)
    (seq 1 m) dp2.

(** The values of the type [double]: binary64, as the Standard Library
    specifies it in [SpecFloat] (53 bits of precision, exponents up to
    1024).  Every operation rounds its exact result to the nearest value,
    ties to even; the conversion of an [int] is exact. *)
Definition double : Type := SpecFloat.spec_float.

Definition double_of_int (z : Z) : double := SpecFloat.binary_normalize 53 1024 z 0 false.
Definition double_div : double -> double -> double := SpecFloat.SFdiv 53 1024.
Definition double_sub : double -> double -> double := SpecFloat.SFsub 53 1024.

(** [x >= y], which is false when either side is not a number. *)
Definition double_ge (x y : double) : bool := SpecFloat.SFleb y x.

(** The literals [1.0] and [0.0]. *)
Definition double_one : double := double_of_int 1.
Definition double_zero : double := SpecFloat.S754_zero false.

(** The largest [int]. *)
Definition INT_MAX : Z := 2147483647.

(** [calculateSimilarity].  The [int]s [m], [n], [distance], [maxLen] and
    the cells of [dp] are integers here: no [int] operation of the function
    overflows when both lengths are below [INT_MAX], and the statements
    about this function assume that.  The quotient and the difference are
    each rounded. *)
Definition DiffEngine_calculateSimilarity (text1 text2 : string) : double :=
  let m := String.length text1 in
  let n := String.length text2 in
  if ((m =? 0) && (n =? 0))%nat then double_one
  else if ((m =? 0) || (n =? 0))%nat then double_zero
  else
    let distance := dp_get (dp_table text1 text2) m n in
    let maxLen := Z.of_nat (Nat.max m n) in
    double_sub double_one (double_div (double_of_int distance) (double_of_int maxLen)).



(** ** Sequences of calls on the store *)

(** One call of [storeObject] or [retrieveObject] by a client; the object
    passed to [storeObject] is the client's and is in any state. *)
Inductive Call : Type :=
  | CallStore (obj : FileObject)
  | CallRetrieve (h : string).

(** The store and the file system after a call, whether it returned or
    threw. *)
Definition call (w : ObjectStore * FileSystem) (c : Call) : ObjectStore * FileSystem :=
  match c with
  | CallStore obj => (ObjectStore_storeObject w.1 w.2 obj).1.1
  | CallRetrieve h => (ObjectStore_retrieveObject w.1 w.2 h).1
  end.

Definition run (calls : list Call) (w : ObjectStore * FileSystem)
  : ObjectStore * FileSystem :=
  fold_left call calls w.

(** ** Vocabulary of the statements *)

(** The path [retrieveObject] builds its result on: the origin recorded for
    the hash, or the placeholder. *)
Definition origin_path (st : ObjectStore) (h : string) : string :=
  match hashToPath st !! h with
  | Some p => p
  | None => "temp"
  end.

(** The bytes [retrieveObject] finds for a hash: the cache entry if there is
    one, otherwise the blob at the sharded path. *)
Definition found_bytes (st : ObjectStore) (fs : FileSystem) (h : string)
  : option (list ascii) :=
  match pool (objectPool st) !! h with
  | Some content => Some content
  | None =>
      match ObjectStore_getObjectPath st h with
      | Ok objPath => files fs !! objPath
      | Throw _ => None
      end
  end.

(** The in-memory content of an object: its lines or its data. *)
Definition held_content (obj : FileObject) : list string + list ascii :=
  match obj with
  | AsText t => inl (lines t)
  | AsBinary b => inr (data b)
  end.

Fixpoint ends_with_newline (bytes : list ascii) : bool :=
  match bytes with
  | [] => false
  | [c] => Ascii.eqb c newline
  | _ :: rest => ends_with_newline rest
  end.

(** The bytes of a text file with its last line terminated: the bytes
    themselves when they are empty or end in a line feed, and the bytes
    followed by one line feed otherwise. *)
Definition terminated (bytes : list ascii) : list ascii :=
  match bytes with
  | [] => []
  | _ :: _ => if ends_with_newline bytes then bytes else bytes ++ [newline]
  end.

(** The bytes [readContent] returns for a file holding [bytes]. *)
Definition content_of (obj : FileObject) (bytes : list ascii) : list ascii :=
  match obj with
  | AsText _ => terminated bytes
  | AsBinary _ => bytes
  end.

Definition is_hex (c : ascii) : bool :=
  let n := N_of_ascii c in
  ((48 <=? n) && (n <=? 57) || (97 <=? n) && (n <=? 102))%N.

(** A complete digest: 64 lower-case hexadecimal characters. *)
Definition is_digest (h : string) : Prop :=
  String.length h = 64%nat /\ forallb is_hex (list_ascii_of_string h) = true.

(** The old (resp. new) file read off the body of a diff: the lines marked
    as context or removed (resp. added), without their mark. *)
Definition side (mark : ascii) (diff : list string) : list string :=
  omap (fun l => match l with
                 | String c rest =>
                     if (Ascii.eqb c " " || Ascii.eqb c mark)%bool then Some rest else None
                 | EmptyString => None
                 end) diff.

(** ** Client programs used in the statements *)

(** [retrieveObject(storeObject(obj))->readContent()]: the bytes read from
    the object retrieved under the hash that [storeObject] returned
    ([Ok None] when [retrieveObject] returns a null pointer). *)
Definition store_then_retrieve (st : ObjectStore) (fs : FileSystem) (obj : FileObject)
  : Exc (option (list ascii)) :=
  match ObjectStore_storeObject st fs obj with
  | (st1, fs1, _, Ok h) =>
      match ObjectStore_retrieveObject st1 fs1 h with
      | (_, fs2, Ok (Some robj)) =>
          match (readContent robj fs2).2 with
          | Ok bytes => Ok (Some bytes)
          | Throw e => Throw e
          end
      | (_, _, Ok None) => Ok None
      | (_, _, Throw e) => Throw e
      end
  | (_, _, _, Throw e) => Throw e
  end.

(** ** Edit distance, as the specification words it *)

(** One edit: a single character inserted, deleted or substituted anywhere
    in the text. *)
Inductive Edit : list ascii -> list ascii -> Prop :=
  | Edit_insert pre c post : Edit (pre ++ post) (pre ++ c :: post)
  | Edit_delete pre c post : Edit (pre ++ c :: post) (pre ++ post)
  | Edit_substitute pre c d post : Edit (pre ++ c :: post) (pre ++ d :: post).

(** [n] edits, one after the other, turn [a] into [b]. *)
Inductive Edits : list ascii -> list ascii -> nat -> Prop :=
  | Edits_none a : Edits a a 0
  | Edits_step a b c n : Edit a b -> Edits b c n -> Edits a c (S n).

(** [d] is the Levenshtein distance of two strings: the least number of
    single-character insertions, deletions and substitutions that turn the
    first into the second. *)
Definition levenshteinDistance (textA textB : string) (d : nat) : Prop :=
  Edits (list_ascii_of_string textA) (list_ascii_of_string textB) d /\
  forall n, Edits (list_ascii_of_string textA) (list_ascii_of_string textB) n ->
            (d <= n)%nat.

(** ** Edit scripts *)

(** An edit script turns [a] into [b] from left to right: a character is
    kept, substituted, deleted from [a] or inserted from [b]; every
    operation but keeping costs one. *)
Inductive EditScript : list ascii -> list ascii -> nat -> Prop :=
  | edit_done : EditScript [] [] 0
  | edit_keep c a b n :
      EditScript a b n -> EditScript (c :: a) (c :: b) n
  | edit_substitute c d a b n :
      EditScript a b n -> EditScript (c :: a) (d :: b) (S n)
  | edit_delete c a b n :
      EditScript a b n -> EditScript (c :: a) b (S n)
  | edit_insert d a b n :
      EditScript a b n -> EditScript a (d :: b) (S n).

(** The recurrence that the table of [calculateSimilarity] tabulates, on
    two character sequences read from their heads. *)
Fixpoint lev (a : list ascii) : list ascii -> nat :=
  fix lev_a (b : list ascii) : nat :=
    match a, b with
    | [], _ => length b
    | _ :: _, [] => length a
    | x :: a', y :: b' =>
        if Ascii.eqb x y then lev a' b'
        else S (Nat.min (Nat.min (lev a' b) (lev_a b')) (lev a' b'))
    end.

(** ** Invariants used in the proofs *)

(** The capacity invariant of a store. *)
Definition within_capacity (st : ObjectStore) (max : nat) : Prop :=
  maxSize (objectPool st) = max /\ (size (pool (objectPool st)) <= max)%nat.

(** A table of [rows] rows of [cols] entries. *)
Definition dims (dp : list (list Z)) (rows cols : nat) : Prop :=
  length dp = rows /\ Forall (fun row => length row = cols) dp.

(** The entry the table must hold at [(i, j)]: the distance between the
    first [i] characters of [text1] and the first [j] of [text2]. *)
Definition prefix_distance (text1 text2 : string) (i j : nat) : Z :=
  Z.of_nat (lev (rev (take i (list_ascii_of_string text1)))
                (rev (take j (list_ascii_of_string text2)))).

(** The cells that hold their final value when the loops stand at
    [(i, j)]: row and column zero, the rows above [i], and row [i] to the
    left of [j]. *)
Definition filled (text1 text2 : string) (i j : nat) (dp : list (list Z)) : Prop :=
  dims dp (String.length text1 + 1) (String.length text2 + 1) /\
  forall i' j',
    (i' <= String.length text1)%nat -> (j' <= String.length text2)%nat ->
    (i' = 0 \/ j' = 0 \/ i' < i \/ (i' = i /\ j' < j))%nat ->
    dp_get dp i' j' = prefix_distance text1 text2 i' j'.

(** ** Concrete files, objects and sessions used in the evaluations *)

Definition emptyDisk : FileSystem := mkFileSystem ∅ ∅.

(** The two text files of the end-to-end scenario. *)
Definition fileA : TextFile := TextFile_setLines (TextFile_new "A") ["foo"; "bar"].
Definition fileB : TextFile := TextFile_setLines (TextFile_new "B") ["foo"; "baz"].

Definition LF : string := String newline "".
Definition CRLF : string := String "013"%char (String newline "").

(** A small disk: [a.txt] and its copy [a2.txt]; [b.txt] with the same lines
    but no final line feed; [w.txt] with the same text and CR LF line ends;
    two other text files and a binary file. *)
Definition disk : FileSystem :=
  mkFileSystem
    (<["a.txt" := list_ascii_of_string ("foo" +:+ LF +:+ "bar" +:+ LF)]>
     (<["a2.txt" := list_ascii_of_string ("foo" +:+ LF +:+ "bar" +:+ LF)]>
      (<["b.txt" := list_ascii_of_string ("foo" +:+ LF +:+ "bar")]>
       (<["w.txt" := list_ascii_of_string ("foo" +:+ CRLF +:+ "bar" +:+ CRLF)]>
        (<["z.txt" := list_ascii_of_string ("foo" +:+ LF +:+ "baz" +:+ LF)]>
         (<["c.txt" := list_ascii_of_string ("baz" +:+ LF)]>
          (<["d.bin" := [zero; "a"%char; zero]]> ∅)))))))
    ∅.

(** The digest of the empty byte sequence. *)
Definition sha_empty : string :=
  "e3b0c44298fc1c149afbf4c8996fb92427ae41e4649b934ca495991b7852b855".

(** Two text objects on the two copies, both holding the loaded lines: the
    first was read before any hash request, the second was asked for its
    hash and then read. *)
Definition readFirst : FileObject :=
  (readContent (AsText (TextFile_new "a.txt")) disk).1.
Definition hashedFirst : FileObject :=
  (readContent (getHash (AsText (TextFile_new "a2.txt"))).2 disk).1.

(** A client session: two stores of objects with different digests and two
    retrievals, one of them of a hash that is not stored. *)
Definition session : list Call :=
  [ CallStore (FileFactory_createFileObject disk "a.txt");
    CallRetrieve sha_empty;
    CallStore (AsText fileA);
    CallRetrieve "ffff" ].

(** ** Further members of the modelled classes *)

(** [getHash], inherited from [FileObject], called on a [TextFile]. *)
Definition TextFile_getHash (t : TextFile) : string * TextFile :=
  let fb := textBase t in
  if (String.eqb (hash fb) "" || isModified fb)%bool then
    let h := TextFile_computeHash t in
    (h, mkText (mkBase (filepath fb) h (fileSize fb) false) (lines t) (encoding t))
  else (hash fb, t).

(** One call by the owner of a [TextFile]; results and exceptions are
    dropped, the object and the file system after the call are kept. *)
Inductive TextCall : Type :=
  | CallReadContent
  | CallWriteContent (bytes : list ascii)
  | CallGetLines
  | CallSetLines (newLines : list string)
  | CallGetHash.

Definition text_call (w : TextFile * FileSystem) (c : TextCall) : TextFile * FileSystem :=
  match c with
  | CallReadContent => ((TextFile_readContent w.1 w.2).1, w.2)
  | CallWriteContent bytes => (TextFile_writeContent w.1 w.2 bytes).1
  | CallGetLines => ((TextFile_getLines w.1 w.2).1, w.2)
  | CallSetLines newLines => (TextFile_setLines w.1 newLines, w.2)
  | CallGetHash => ((TextFile_getHash w.1).2, w.2)
  end.

Definition text_run (calls : list TextCall) (w : TextFile * FileSystem)
  : TextFile * FileSystem :=
  fold_left text_call calls w.

(** [ObjectStore::cleanup].  File times are not part of [FileSystem]:
    [hours path] stands for
    [duration_cast<hours>(now - last_write_time(path)).count()] at the call.
    The division by 24 is the truncating division of C++.  Every regular
    file below [storePath] whose age in days exceeds [daysOld] is removed;
    the cache and the map of origin paths are not touched. *)
Definition ObjectStore_cleanup
    (st : ObjectStore) (fs : FileSystem) (hours : string -> Z) (daysOld : Z)
  : FileSystem :=
  mkFileSystem
    (filter (fun entry : string * list ascii =>
               (below (storePath st) entry.1 && (daysOld <? hours entry.1 ÷ 24)%Z) = false)
            (files fs))
    (unwritable fs).

(** [forEach]: [func] is called on the entries of [hashToPath] in the order
    of [std::map], least key first; what [func] does to its captured state
    is the accumulator.  [fuel] bounds the number of entries visited. *)
Fixpoint entries_ascending (fuel : nat) (m : gmap string string) : list (string * string) :=
  match fuel with
  | O => []
  | S fuel' =>
      match pool_begin m with
      | None => []
      | Some k =>
          match m !! k with
          | Some v => (k, v) :: entries_ascending fuel' (delete k m)
          | None => []
          end
      end
  end.

Definition ObjectStore_forEach {State : Type}
    (st : ObjectStore) (func : State -> string -> string -> State) (s : State) : State :=
  fold_left (fun s' entry => func s' entry.1 entry.2)
            (entries_ascending (size (hashToPath st)) (hashToPath st)) s.

(** ** Further vocabulary *)

(** A line as [std::getline] delivers it: without a line feed. *)
Definition one_line (l : string) : Prop := newline ∉ list_ascii_of_string l.

(** The keys of a list of entries increase strictly. *)
Fixpoint ascending (keys : list string) : Prop :=
  match keys with
  | [] => True
  | k :: rest => Forall (fun k' => String.ltb k k' = true) rest /\ ascending rest
  end.


Definition sha_foo_bar : string :=
  "d78931fcf2660108eec0d6674ecb4e02401b5256a6b5ee82527766ef6d198c67".

Definition diskWithBlob : FileSystem :=
  (ObjectStore_storeObject (ObjectStore_new "objects") disk readFirst).1.1.2.

(** File ages for [cleanup]: every file was written 30 hours before the
    call. *)
Definition thirtyHours : string -> Z := fun _ => 30%Z.

(** The lines of a text written with CR LF line ends, as they stand between
    the line feeds: each line followed by a carriage return. *)
Definition carriage_return : ascii := "013"%char.
Definition withCarriageReturns (ls : list string) : list string :=
  map (fun l => l +:+ String carriage_return "") ls.


(** The names a path is made of, as the file system resolves it: the
    pieces between the separators, empty pieces (from a doubled or final
    separator) dropped. *)
Definition separator : ascii := "/"%char.

Fixpoint split_path (name : string) (path : string) : list string :=
  match path with
  | EmptyString => if String.eqb name "" then [] else [name]
  | String c rest =>
      if Ascii.eqb c separator
      then (if String.eqb name "" then [] else [name]) ++ split_path "" rest
      else split_path (name +:+ String c "") rest
  end.

Definition components (path : string) : list string := split_path "" path.

Definition join_path (names : list string) : string :=
  match names with
  | [] => ""
  | first :: others => fold_left (fun p n => p +:+ "/" +:+ n) others first
  end.

(** A plain path: relative, written without doubled or final separators
    and without the names [.] and [..].  Two plain paths name the same file
    exactly when they are the same string (links left aside), and a plain
    path lies inside the directory of a plain path exactly when the latter,
    followed by a separator, is a prefix of it. *)
Definition plain (path : string) : bool :=
  negb (String.eqb path "")
  && String.eqb path (join_path (components path))
  && forallb (fun n => negb (String.eqb n ".") && negb (String.eqb n "..")) (components path).

(** A file system in which every file has a plain path. *)
Definition plain_files (fs : FileSystem) : bool :=
  forallb (fun entry : string * list ascii => plain entry.1) (map_to_list (files fs)).


(** * Properties *)

(** ** Evaluations of the model on known values *)

Example sha256_empty :
  hexString (SHA256 []) =
  "e3b0c44298fc1c149afbf4c8996fb92427ae41e4649b934ca495991b7852b855".
Proof. vm_compute. reflexivity. Qed.

Example sha256_abc :
  hexString (SHA256 (list_ascii_of_string "abc")) =
  "ba7816bf8f01cfea414140de5dae2223b00361a396177a9cb410ff61f20015ad".
Proof. vm_compute. reflexivity. Qed.

Example sha256_two_blocks :
  hexString (SHA256 (list_ascii_of_string
    "abcdbcdecdefdefgefghfghighijhijkijkljklmklmnlmnomnopnopq")) =
  "248d6a61d20638b8e5c026930c3e6039a33ce45964ff2167f6ecedd419db06c1".
Proof. vm_compute. reflexivity. Qed.

Example computeDiff_foo :
  SimpleDiff_computeDiff ["foo"; "bar"] ["foo"; "baz"] =
  ["--- old"; "+++ new"; " foo"; "-bar"; "+baz"].
Proof. reflexivity. Qed.

Example similarity_kitten :
  DiffEngine_calculateSimilarity "kitten" "sitting"
  = double_sub double_one (double_div (double_of_int 3) (double_of_int 7)).
Proof. vm_compute. reflexivity. Qed.

(** One minus the rounded third is [0x1.5555555555556p-1], one unit in the
    last place above the double nearest to two thirds. *)
Example similarity_abc_abd :
  DiffEngine_calculateSimilarity "abc" "abd"
  = SpecFloat.S754_finite false 6004799503160662 (-53).
Proof. vm_compute. reflexivity. Qed.

(** ** Change classification *)

Lemma getHash_path (obj : FileObject) : getPath (getHash obj).2 = getPath obj.
Proof.
  unfold getHash, getPath.
  destruct (String.eqb (hash (base obj)) "" || isModified (base obj))%bool;
    [destruct obj|]; reflexivity.
Qed.

(** C2: [compareFiles] classifies a pair of possibly null arguments by the
    four rules: both null give [UNCHANGED] with an empty path and empty
    hashes, computed without any call on an object; a null old file gives
    [ADDED] with [newHash] the new file's hash; a null new file gives
    [REMOVED] with [oldHash] the old file's hash; two files give [UNCHANGED]
    when their hashes are equal and [MODIFIED] otherwise. *)
Theorem compareFiles_classification :
  (DiffEngine_compareFiles None None).1.1 = mkChange UNCHANGED "" "" "" /\
  (forall n : FileObject,
     (DiffEngine_compareFiles None (Some n)).1.1
     = mkChange ADDED (getPath n) "" (getHash n).1) /\
  (forall o : FileObject,
     (DiffEngine_compareFiles (Some o) None).1.1
     = mkChange REMOVED (getPath o) (getHash o).1 "") /\
  (forall o n : FileObject,
     (DiffEngine_compareFiles (Some o) (Some n)).1.1
     = mkChange (if String.eqb (getHash o).1 (getHash n).1 then UNCHANGED else MODIFIED)
                (getPath o) (getHash o).1 (getHash n).1).
Proof.
  split; [reflexivity|].
  split; [intros n; simpl; destruct (getHash n); reflexivity|].
  split; [intros o; simpl; destruct (getHash o); reflexivity|].
  intros o n. simpl.
  destruct (getHash o) as [oh o'], (getHash n) as [nh n']. simpl.
  destruct (String.eqb oh nh); reflexivity.
Qed.

(** ** The line diff of the end-to-end scenario *)

(** C5, as the claim states it, fails: the diff of the two files is not the
    three-line sequence, because [computeDiff] starts its result with the two
    header lines. *)
Lemma lineDiff_not_three_lines :
  DiffEngine_generateUnifiedDiff DiffEngine_new emptyDisk (Some fileA) (Some fileB)
  <> Ok [" foo"; "-bar"; "+baz"].
Proof. vm_compute. discriminate. Qed.

(** C5, amended: for text files holding the lines ["foo"; "bar"] and
    ["foo"; "baz"], the diff is the two header lines ["--- old"] and
    ["+++ new"] followed by exactly [" foo"], ["-bar"], ["+baz"], whatever
    the paths, the hash caches, the file system and the selected algorithm. *)
Theorem lineDiff_foo_bar_baz (e : DiffEngine) (fs : FileSystem) (a b : TextFile) :
  lines a = ["foo"; "bar"] ->
  lines b = ["foo"; "baz"] ->
  DiffEngine_generateUnifiedDiff e fs (Some a) (Some b)
  = Ok ["--- old"; "+++ new"; " foo"; "-bar"; "+baz"].
Proof.
  intros Ha Hb. unfold DiffEngine_generateUnifiedDiff, TextFile_getLines.
  rewrite Ha, Hb. by destruct e as [[] ? ?].
Qed.

Lemma lineDiff_foo_bar_baz_witness :
  DiffEngine_generateUnifiedDiff DiffEngine_new emptyDisk (Some fileA) (Some fileB)
  = Ok ["--- old"; "+++ new"; " foo"; "-bar"; "+baz"].
Proof.
  apply (lineDiff_foo_bar_baz DiffEngine_new emptyDisk fileA fileB); reflexivity.
Defined.

(** The same diff for two objects created from paths, whose lines are
    loaded by [getLines] from files holding these lines. *)
Example lineDiff_loaded_from_disk :
  DiffEngine_generateUnifiedDiff DiffEngine_new disk
    (Some (TextFile_new "a.txt")) (Some (TextFile_new "z.txt"))
  = Ok ["--- old"; "+++ new"; " foo"; "-bar"; "+baz"].
Proof. vm_compute. reflexivity. Qed.

(** ** The bounded cache *)

Lemma least_key_elem (keys : list string) (k : string) :
  least_key keys = Some k -> k ∈ keys.
Proof.
  revert k. induction keys as [|k0 keys IH]; intros k; simpl; [discriminate|].
  destruct (least_key keys) as [k'|] eqn:E.
  - destruct (String.ltb k0 k'); intros [= <-]; [left | right; auto].
  - intros [= <-]. left.
Qed.

Lemma least_key_None (keys : list string) : least_key keys = None -> keys = [].
Proof.
  destruct keys as [|k0 keys]; [reflexivity|]. simpl.
  destruct (least_key keys) as [k'|]; [destruct (String.ltb k0 k')|]; discriminate.
Qed.

Lemma pool_begin_held {T : Type} (m : gmap string T) (k : string) :
  pool_begin m = Some k -> is_Some (m !! k).
Proof.
  intros H%least_key_elem. apply elem_of_elements in H. by apply elem_of_dom.
Qed.

Lemma pool_begin_None {T : Type} (m : gmap string T) : pool_begin m = None -> m = ∅.
Proof.
  intros H%least_key_None. apply elements_empty_inv in H.
  apply dom_empty_iff_L. by apply leibniz_equiv.
Qed.

Lemma StoragePool_store_maxSize {T : Type} (p : StoragePool T) key value :
  maxSize (StoragePool_store p key value) = maxSize p.
Proof. reflexivity. Qed.


(** [store] keeps the pool within a positive capacity. *)
Lemma StoragePool_store_size {T : Type} (p : StoragePool T) key value :
  (0 < maxSize p)%nat ->
  (size (pool p) <= maxSize p)%nat ->
  (size (pool (StoragePool_store p key value)) <= maxSize p)%nat.
Proof.
  intros Hpos Hle. unfold StoragePool_store. simpl.
  destruct (Nat.leb_spec (maxSize p) (size (pool p))) as [Hfull|Hroom].
  - destruct (pool_begin (pool p)) as [k|] eqn:Hb.
    + destruct (pool_begin_held _ _ Hb) as [v Hv].
      pose proof (map_size_delete_Some k (pool p) (ex_intro _ v Hv)) as Hd.
      pose proof (map_size_insert key value (delete k (pool p))) as Hi.
      destruct (delete k (pool p) !! key); simpl in Hi; lia.
    + apply pool_begin_None in Hb. rewrite Hb in Hfull.
      rewrite map_size_empty in Hfull. lia.
  - pose proof (map_size_insert key value (pool p)) as Hi.
    destruct (pool p !! key); simpl in Hi; lia.
Qed.

Lemma rebuild_store st fs h content : (ObjectStore_rebuild st fs h content).1.1 = st.
Proof.
  unfold ObjectStore_rebuild.
  destruct (writeContent _ fs content) as [[obj' fs'] [[]|e]]; reflexivity.
Qed.

Lemma storeObject_capacity st fs obj max :
  (0 < max)%nat -> within_capacity st max ->
  within_capacity (ObjectStore_storeObject st fs obj).1.1.1 max.
Proof.
  intros Hpos [Hmax Hsize]. unfold ObjectStore_storeObject.
  destruct (getHash obj) as [h obj1].
  destruct (ObjectStore_hasObject st fs h) as [[|]|e]; simpl; [done| |done].
  destruct (readContent obj1 fs) as [obj2 [content|e]]; simpl; [|done].
  assert (within_capacity
            (mkStore (storePath st) (StoragePool_store (objectPool st) h content)
                     (hashToPath st)) max) as Hst1.
  { split; simpl; [done|]. rewrite <- Hmax. apply StoragePool_store_size; lia. }
  destruct (ObjectStore_getObjectPath st h) as [objPath|e]; simpl; [|done].
  destruct (ofstream_write fs objPath content); simpl; done.
Qed.

Lemma retrieveObject_capacity st fs h max :
  (0 < max)%nat -> within_capacity st max ->
  within_capacity (ObjectStore_retrieveObject st fs h).1.1 max.
Proof.
  intros Hpos [Hmax Hsize]. unfold ObjectStore_retrieveObject, StoragePool_retrieve.
  destruct (pool (objectPool st) !! h) as [content|].
  { rewrite rebuild_store. done. }
  destruct (ObjectStore_getObjectPath st h) as [objPath|e]; simpl; [|done].
  destruct (fs_exists fs objPath); simpl; [|done].
  destruct (ifstream_read fs objPath) as [content|]; simpl; [|done].
  rewrite rebuild_store. split; simpl; [done|].
  rewrite <- Hmax. apply StoragePool_store_size; lia.
Qed.

Lemma run_capacity calls st fs max :
  (0 < max)%nat -> within_capacity st max -> within_capacity (run calls (st, fs)).1 max.
Proof.
  intros Hpos. revert st fs. induction calls as [|c calls IH]; intros st fs Hinv; [done|].
  unfold run in *. simpl. destruct (call (st, fs) c) as [st' fs'] eqn:Hc.
  apply IH. destruct c as [obj|h]; simpl in Hc.
  - replace st' with (ObjectStore_storeObject st fs obj).1.1.1 by (by rewrite Hc).
    by apply storeObject_capacity.
  - replace st' with (ObjectStore_retrieveObject st fs h).1.1 by (by rewrite Hc).
    by apply retrieveObject_capacity.
Qed.

(** C8: a store whose cache was built with a positive capacity [max] (the
    constructor passes 2000) holds at most [max] cache entries after any
    sequence of [storeObject] and [retrieveObject] calls, returning or
    throwing; and a lookup in that cache reports success only for a hash
    the cache holds, with the bytes it holds for it. *)
Theorem cache_never_exceeds_capacity
    (max : nat) (root : string) (fs : FileSystem) (calls : list Call) :
  (0 < max)%nat ->
  let st := (run calls (mkStore root (StoragePool_new max) ∅, fs)).1 in
  (StoragePool_size (objectPool st) <= max)%nat /\
  (forall (h : string) (before content : list ascii),
     StoragePool_retrieve (objectPool st) h before = (true, content) ->
     pool (objectPool st) !! h = Some content) /\
  (forall h : string,
     StoragePool_contains (objectPool st) h = true ->
     is_Some (pool (objectPool st) !! h)).
Proof.
  intros Hpos st. split; [|split].
  - apply (run_capacity calls _ fs max Hpos). split; simpl; [done|].
    rewrite map_size_empty. lia.
  - intros h before content. unfold StoragePool_retrieve.
    destruct (pool (objectPool st) !! h); intros [= <-]; done.
  - intros h. unfold StoragePool_contains. apply bool_decide_eq_true_1.
Qed.

Lemma cache_never_exceeds_capacity_witness :
  let st := (run session (mkStore "objects" (StoragePool_new 1) ∅, disk)).1 in
  (StoragePool_size (objectPool st) <= 1)%nat /\
  (forall (h : string) (before content : list ascii),
     StoragePool_retrieve (objectPool st) h before = (true, content) ->
     pool (objectPool st) !! h = Some content) /\
  (forall h : string,
     StoragePool_contains (objectPool st) h = true ->
     is_Some (pool (objectPool st) !! h)).
Proof. apply (cache_never_exceeds_capacity 1 "objects" disk session). lia. Defined.

(** ** What a retrieval writes *)

Lemma ofstream_write_files fs p bytes fs' :
  ofstream_write fs p bytes = Some fs' ->
  files fs' = <[p := bytes]> (files fs) /\ unwritable fs' = unwritable fs /\
  p ∉ unwritable fs.
Proof.
  unfold ofstream_write. destruct (decide (p ∈ unwritable fs)); [discriminate|].
  intros [= <-]. done.
Qed.

Lemma ofstream_write_Some fs p bytes :
  p ∉ unwritable fs ->
  ofstream_write fs p bytes
  = Some (mkFileSystem (<[p := bytes]> (files fs)) (unwritable fs)).
Proof. intros H. unfold ofstream_write. by destruct (decide (p ∈ unwritable fs)). Qed.

Lemma createFileObject_path fs p : getPath (FileFactory_createFileObject fs p) = p.
Proof.
  unfold FileFactory_createFileObject. by destruct (FileFactory_detectBinary fs p).
Qed.

(** A [writeContent] that returns has replaced the object's file by the
    bytes; one that throws has changed nothing. *)
Lemma writeContent_Ok obj fs bytes obj' fs' :
  writeContent obj fs bytes = (obj', fs', Ok tt) ->
  ofstream_write fs (getPath obj) bytes = Some fs' /\ getPath obj' = getPath obj.
Proof.
  destruct obj as [t|b]; simpl;
    unfold TextFile_writeContent, BinaryFile_writeContent, getPath; simpl;
    destruct (ofstream_write fs _ bytes); intros [= <- <-]; done.
Qed.

Lemma writeContent_writable obj fs bytes :
  getPath obj ∉ unwritable fs ->
  exists obj', writeContent obj fs bytes
    = (obj', mkFileSystem (<[getPath obj := bytes]> (files fs)) (unwritable fs), Ok tt).
Proof.
  intros H. destruct obj as [t|b]; simpl;
    unfold TextFile_writeContent, BinaryFile_writeContent, getPath in *; simpl in *;
    rewrite (ofstream_write_Some _ _ _ H); eauto.
Qed.

Lemma rebuild_Some st fs h content st' fs' obj :
  ObjectStore_rebuild st fs h content = (st', fs', Ok (Some obj)) ->
  writeContent (FileFactory_createFileObject fs (origin_path st h)) fs content
  = (obj, fs', Ok tt).
Proof.
  unfold ObjectStore_rebuild. fold (origin_path st h).
  destruct (writeContent _ fs content) as [[obj' fs''] [[]|e]]; intros [= <- <- <-]; done.
Qed.

Lemma retrieveObject_bytes st fs h st' fs' obj :
  ObjectStore_retrieveObject st fs h = (st', fs', Ok (Some obj)) ->
  exists content,
    found_bytes st fs h = Some content /\
    ObjectStore_rebuild
      (mkStore (storePath st) (objectPool st') (hashToPath st)) fs h content
    = (st', fs', Ok (Some obj)).
Proof.
  unfold ObjectStore_retrieveObject, StoragePool_retrieve, found_bytes.
  destruct (pool (objectPool st) !! h) as [content|].
  - intros H. exists content. split; [done|].
    pose proof (rebuild_store st fs h content) as Hst. rewrite H in Hst. simpl in Hst.
    subst st'. by destruct st.
  - destruct (ObjectStore_getObjectPath st h) as [objPath|e]; [|discriminate].
    destruct (fs_exists fs objPath); simpl; [|discriminate].
    unfold ifstream_read.
    destruct (files fs !! objPath) as [content|]; [|discriminate].
    intros H. exists content. split; [done|].
    match type of H with ObjectStore_rebuild ?s _ _ _ = _ =>
      pose proof (rebuild_store s fs h content) as Hst end.
    rewrite H in Hst. simpl in Hst. subst st'. done.
Qed.

Lemma retrieveObject_returned st fs h st' fs' obj :
  ObjectStore_retrieveObject st fs h = (st', fs', Ok (Some obj)) ->
  exists content,
    found_bytes st fs h = Some content /\
    writeContent (FileFactory_createFileObject fs (origin_path st h)) fs content
    = (obj, fs', Ok tt) /\
    getPath obj = origin_path st h /\
    files fs' !! origin_path st h = Some content.
Proof.
  intros H.
  destruct (retrieveObject_bytes _ _ _ _ _ _ H) as (content & Hfound & Hre).
  exists content. split; [done|].
  apply rebuild_Some in Hre. unfold origin_path in *. simpl in Hre.
  split; [done|].
  destruct (writeContent_Ok _ _ _ _ _ Hre) as [Hw Hp].
  rewrite createFileObject_path in Hw, Hp. split; [done|].
  destruct (ofstream_write_files _ _ _ _ Hw) as (-> & _ & _).
  apply lookup_insert_eq.
Qed.

Lemma retrieveObject_found st fs h content :
  found_bytes st fs h = Some content ->
  origin_path st h ∉ unwritable fs ->
  exists st' obj,
    ObjectStore_retrieveObject st fs h
    = (st', mkFileSystem (<[origin_path st h := content]> (files fs)) (unwritable fs),
       Ok (Some obj)).
Proof.
  intros Hfound Hw.
  unfold ObjectStore_retrieveObject, StoragePool_retrieve.
  unfold found_bytes in Hfound.
  assert (forall s, hashToPath s = hashToPath st ->
            exists obj, ObjectStore_rebuild s fs h content
              = (s, mkFileSystem (<[origin_path st h := content]> (files fs))
                                 (unwritable fs), Ok (Some obj))) as Hre.
  { intros s Hs. unfold ObjectStore_rebuild, origin_path in *. rewrite Hs.
    set (p := match hashToPath st !! h with Some p => p | None => "temp" end) in *.
    destruct (writeContent_writable (FileFactory_createFileObject fs p) fs content)
      as [obj' Hobj]; [by rewrite createFileObject_path|].
    rewrite createFileObject_path in Hobj. rewrite Hobj. eauto. }
  destruct (pool (objectPool st) !! h) as [c|].
  - injection Hfound as ->. destruct (Hre st eq_refl) as [obj Hobj]. eauto.
  - destruct (ObjectStore_getObjectPath st h) as [objPath|e]; [|discriminate].
    unfold fs_exists, ifstream_read. rewrite Hfound.
    rewrite bool_decide_eq_true_2 by eauto. simpl.
    match goal with |- context [ObjectStore_rebuild ?s _ _ _] =>
      destruct (Hre s eq_refl) as [obj Hobj] end.
    eauto.
Qed.

(** C10: whenever [retrieveObject] returns an object for a hash, there are
    bytes it found for that hash (in the cache, else in the blob on disk),
    the object is the one [writeContent] returns when called with these
    bytes on the object the factory builds at the origin path recorded for
    the hash (["temp"] when none is recorded), and after the call the file
    at that path holds exactly these bytes.  Conversely every hash that is
    found is retrieved in this way when the stream at that path opens. *)
Theorem retrieveObject_overwrites_origin (st : ObjectStore) (fs : FileSystem) (h : string) :
  (forall st' fs' obj,
     ObjectStore_retrieveObject st fs h = (st', fs', Ok (Some obj)) ->
     exists content,
       found_bytes st fs h = Some content /\
       writeContent (FileFactory_createFileObject fs (origin_path st h)) fs content
       = (obj, fs', Ok tt) /\
       getPath obj = origin_path st h /\
       files fs' !! origin_path st h = Some content) /\
  (forall content,
     found_bytes st fs h = Some content ->
     origin_path st h ∉ unwritable fs ->
     exists st' obj,
       ObjectStore_retrieveObject st fs h
       = (st', mkFileSystem (<[origin_path st h := content]> (files fs)) (unwritable fs),
          Ok (Some obj))).
Proof.
  split.
  - intros st' fs' obj. apply retrieveObject_returned.
  - intros content. apply retrieveObject_found.
Qed.

Lemma retrieveObject_overwrites_origin_witness :
  exists st' obj,
    ObjectStore_retrieveObject
      (ObjectStore_storeObject (ObjectStore_new "objects") disk
         (FileFactory_createFileObject disk "a.txt")).1.1.1
      (ObjectStore_storeObject (ObjectStore_new "objects") disk
         (FileFactory_createFileObject disk "a.txt")).1.1.2 sha_empty
    = (st',
       mkFileSystem
         (<["a.txt" := list_ascii_of_string ("foo" +:+ LF +:+ "bar" +:+ LF)]>
            (files (ObjectStore_storeObject (ObjectStore_new "objects") disk
                      (FileFactory_createFileObject disk "a.txt")).1.1.2))
         (unwritable (ObjectStore_storeObject (ObjectStore_new "objects") disk
                        (FileFactory_createFileObject disk "a.txt")).1.1.2),
       Ok (Some obj)).
Proof.
  apply (proj2 (retrieveObject_overwrites_origin
                  (ObjectStore_storeObject (ObjectStore_new "objects") disk
                     (FileFactory_createFileObject disk "a.txt")).1.1.1
                  (ObjectStore_storeObject (ObjectStore_new "objects") disk
                     (FileFactory_createFileObject disk "a.txt")).1.1.2 sha_empty)).
  - vm_compute. reflexivity.
  - vm_compute. discriminate.
Defined.

(** ** Lines and bytes of text content *)

Lemma append_String (x : ascii) (a b : string) : String x a +:+ b = String x (a +:+ b).
Proof. reflexivity. Qed.

Lemma append_empty_l (a : string) : "" +:+ a = a.
Proof. reflexivity. Qed.

Lemma append_assoc (a b c : string) : (a +:+ b) +:+ c = a +:+ (b +:+ c).
Proof.
  induction a as [|x a IH]; [reflexivity|]. rewrite !append_String. by rewrite IH.
Qed.

Lemma append_empty_r (a : string) : a +:+ "" = a.
Proof. induction a as [|x a IH]; [reflexivity|]. rewrite append_String. by rewrite IH. Qed.

Lemma list_ascii_of_string_app (a b : string) :
  list_ascii_of_string (a +:+ b) = list_ascii_of_string a ++ list_ascii_of_string b.
Proof.
  induction a as [|x a IH]; [reflexivity|]. rewrite append_String. simpl. by rewrite IH.
Qed.

Lemma joinLines_from (ls : list string) (ss : string) :
  fold_left (fun ss line => ss +:+ line +:+ String newline "") ls ss
  = ss +:+ joinLines ls.
Proof.
  unfold joinLines. revert ss. induction ls as [|l ls IH]; intros ss; simpl.
  - by rewrite append_empty_r.
  - rewrite IH, (IH ("" +:+ _)). by rewrite append_empty_l, !append_assoc.
Qed.

Lemma joinLines_cons (l : string) (ls : list string) :
  joinLines (l :: ls) = l +:+ String newline "" +:+ joinLines ls.
Proof.
  unfold joinLines at 1. simpl. rewrite joinLines_from.
  by rewrite append_empty_l, append_assoc.
Qed.

Lemma ends_with_newline_cons (c : ascii) (bytes : list ascii) :
  bytes <> [] -> ends_with_newline (c :: bytes) = ends_with_newline bytes.
Proof. destruct bytes; [done|reflexivity]. Qed.

(** The bytes rebuilt from the lines that the [getline] loop extracts, for
    any state of the loop. *)
Lemma joinLines_getlines (stream : list ascii) (line : string) (extracted : bool) :
  list_ascii_of_string (joinLines (getlines line extracted stream))
  = match stream with
    | [] => if extracted then list_ascii_of_string line ++ [newline] else []
    | _ :: _ =>
        list_ascii_of_string line ++ stream
        ++ (if ends_with_newline stream then [] else [newline])
    end.
Proof.
  revert line extracted. induction stream as [|c rest IH]; intros line extracted.
  - simpl. destruct extracted; [|reflexivity].
    rewrite joinLines_cons, list_ascii_of_string_app. reflexivity.
  - cbn [getlines]. destruct (Ascii.eqb_spec c newline) as [->|Hc].
    + rewrite joinLines_cons, !list_ascii_of_string_app, IH. simpl.
      destruct rest as [|c' rest']; reflexivity.
    + rewrite IH, list_ascii_of_string_app. simpl.
      destruct rest as [|c' rest'].
      * simpl. apply Ascii.eqb_neq in Hc. rewrite Hc. by rewrite <- app_assoc.
      * by rewrite <- app_assoc.
Qed.

(** [TextFile::readContent] returns the file with its last line terminated. *)
Lemma TextFile_readContent_bytes (t : TextFile) (fs : FileSystem) (bytes : list ascii) :
  files fs !! filepath (textBase t) = Some bytes ->
  (TextFile_readContent t fs).2 = Ok (terminated bytes).
Proof.
  intros H. unfold TextFile_readContent, ifstream_read. rewrite H. simpl.
  rewrite joinLines_getlines. destruct bytes as [|c rest]; [done|].
  unfold terminated. change (list_ascii_of_string "") with (@nil ascii).
  rewrite app_nil_l. destruct (ends_with_newline (c :: rest)); by rewrite ?app_nil_r.
Qed.

Lemma ends_with_newline_snoc (bytes : list ascii) :
  ends_with_newline (bytes ++ [newline]) = true.
Proof.
  induction bytes as [|c rest IH]; [reflexivity|].
  change ((c :: rest) ++ [newline]) with (c :: (rest ++ [newline])).
  rewrite ends_with_newline_cons; [done|]. by destruct rest.
Qed.

Lemma terminated_idem (bytes : list ascii) : terminated (terminated bytes) = terminated bytes.
Proof.
  destruct bytes as [|c rest]; [reflexivity|]. unfold terminated at 2.
  destruct (ends_with_newline (c :: rest)) eqn:E.
  - unfold terminated. by rewrite E.
  - unfold terminated. simpl app. cbv match.
    change (c :: rest ++ [newline]) with ((c :: rest) ++ [newline]).
    by rewrite ends_with_newline_snoc, E.
Qed.

Lemma readContent_bytes (obj : FileObject) (fs : FileSystem) (bytes : list ascii) :
  files fs !! getPath obj = Some bytes ->
  (readContent obj fs).2 = Ok (content_of obj bytes).
Proof.
  intros H. destruct obj as [t|b]; simpl.
  - pose proof (TextFile_readContent_bytes t fs bytes H) as Ht.
    by destruct (TextFile_readContent t fs).
  - unfold BinaryFile_readContent, ifstream_read, getPath in *. simpl in H. by rewrite H.
Qed.

Lemma readContent_Ok (obj : FileObject) (fs : FileSystem) obj' content :
  readContent obj fs = (obj', Ok content) ->
  exists bytes, files fs !! getPath obj = Some bytes /\ content = content_of obj bytes /\
                getPath obj' = getPath obj /\ isBinary obj' = isBinary obj.
Proof.
  intros H. destruct (files fs !! getPath obj) as [bytes|] eqn:E.
  - exists bytes. split; [done|]. pose proof (readContent_bytes obj fs bytes E) as Hb.
    rewrite H in Hb. simpl in Hb. injection Hb as ->. split; [done|].
    destruct obj as [t|b]; simpl in *;
      unfold TextFile_readContent, BinaryFile_readContent, ifstream_read, getPath in *;
      simpl in *; rewrite E in H; by simplify_eq.
  - destruct obj as [t|b]; simpl in *;
      unfold TextFile_readContent, BinaryFile_readContent, ifstream_read, getPath in *;
      simpl in *; rewrite E in H; discriminate.
Qed.

(** ** Store, then retrieve *)

Lemma getHash_isBinary (obj : FileObject) : isBinary (getHash obj).2 = isBinary obj.
Proof.
  unfold getHash.
  destruct (String.eqb (hash (base obj)) "" || isModified (base obj))%bool;
    [destruct obj|]; reflexivity.
Qed.

Lemma content_of_kind (a b : FileObject) (bytes : list ascii) :
  isBinary a = isBinary b -> content_of a bytes = content_of b bytes.
Proof. destruct a, b; simpl; congruence. Qed.

Lemma content_of_idem (obj : FileObject) (bytes : list ascii) :
  content_of obj (content_of obj bytes) = content_of obj bytes.
Proof. destruct obj; simpl; [apply terminated_idem | reflexivity]. Qed.

(** What a [storeObject] that finds the hash absent and returns has done. *)
Lemma storeObject_stored st fs obj st1 fs1 obj1 h :
  ObjectStore_storeObject st fs obj = (st1, fs1, obj1, Ok h) ->
  ObjectStore_hasObject st fs h = Ok false ->
  exists bytes objPath,
    h = (getHash obj).1 /\
    files fs !! getPath obj = Some bytes /\
    ObjectStore_getObjectPath st h = Ok objPath /\
    ofstream_write fs objPath (content_of obj bytes) = Some fs1 /\
    st1 = mkStore (storePath st)
                  (StoragePool_store (objectPool st) h (content_of obj bytes))
                  (<[h := getPath obj]> (hashToPath st)) /\
    getPath obj1 = getPath obj.
Proof.
  unfold ObjectStore_storeObject.
  pose proof (getHash_path obj) as Hp. pose proof (getHash_isBinary obj) as Hk.
  destruct (getHash obj) as [h' obj0]. simpl in Hp, Hk.
  destruct (ObjectStore_hasObject st fs h') as [[|]|e] eqn:Hh.
  - intros [= <- <- <- <-] Hh'. congruence.
  - destruct (readContent obj0 fs) as [obj2 [content|e]] eqn:Hr; [|discriminate].
    destruct (readContent_Ok _ _ _ _ Hr) as (bytes & Hb & -> & Hp2 & _).
    destruct (ObjectStore_getObjectPath st h') as [objPath|e] eqn:Ho; [|discriminate].
    destruct (ofstream_write fs objPath _) as [fs'|] eqn:Hw; [|discriminate].
    intros [= <- <- <- <-] _. exists bytes, objPath.
    rewrite (content_of_kind obj obj0) by done. rewrite Hp in *.
    simpl. rewrite Hp2. done.
  - discriminate.
Qed.

(** C1, as the claim states it, fails: a text file without a final line
    feed is stored, and the object retrieved for the returned hash does not
    hold the original bytes (it holds them with a line feed added). *)
Lemma roundtrip_not_exact :
  store_then_retrieve (ObjectStore_new "objects") disk
    (FileFactory_createFileObject disk "b.txt")
  <> Ok (files disk !! "b.txt").
Proof. vm_compute. discriminate. Qed.

(** C1, amended: when [storeObject] returns a hash that the store did not
    hold before the call, and the object's path can be opened for writing,
    [retrieveObject] on that hash returns an object at the same path whose
    file then holds exactly the bytes [readContent] returned on the stored
    object: the bytes of the original file for a binary object, and for a
    text object the original bytes with the last line terminated (the
    original bytes themselves when they are empty or end in a line feed).
    Reading the retrieved object returns these bytes when it is of the same
    class as the stored one. *)
Theorem store_then_retrieve_bytes
    (st : ObjectStore) (fs : FileSystem) (obj : FileObject) (h : string) :
  (ObjectStore_storeObject st fs obj).2 = Ok h ->
  ObjectStore_hasObject st fs h = Ok false ->
  getPath obj ∉ unwritable fs ->
  exists bytes st2 fs2 robj,
    files fs !! getPath obj = Some bytes /\
    ObjectStore_retrieveObject (ObjectStore_storeObject st fs obj).1.1.1
                               (ObjectStore_storeObject st fs obj).1.1.2 h
    = (st2, fs2, Ok (Some robj)) /\
    getPath robj = getPath obj /\
    files fs2 !! getPath obj = Some (content_of obj bytes) /\
    (isBinary robj = isBinary obj ->
     (readContent robj fs2).2 = Ok (content_of obj bytes)).
Proof.
  intros Hret Hnew Hw.
  destruct (ObjectStore_storeObject st fs obj) as [[[st1 fs1] obj1] r] eqn:Hs.
  simpl in Hret. subst r. simpl.
  destruct (storeObject_stored _ _ _ _ _ _ _ Hs Hnew)
    as (bytes & objPath & Hh & Hb & Ho & Hwr & Hst1 & Hp1).
  destruct (ofstream_write_files _ _ _ _ Hwr) as (Hf1 & Hu1 & _).
  assert (found_bytes st1 fs1 h = Some (content_of obj bytes)) as Hfound.
  { unfold found_bytes. rewrite Hst1. simpl. by rewrite lookup_insert_eq. }
  assert (origin_path st1 h = getPath obj) as Horigin.
  { unfold origin_path. rewrite Hst1. simpl. by rewrite lookup_insert_eq. }
  destruct (retrieveObject_found st1 fs1 h _ Hfound) as (st2 & robj & Hr).
  { rewrite Horigin, Hu1. done. }
  rewrite Horigin in Hr.
  destruct (retrieveObject_returned _ _ _ _ _ _ Hr) as (c & _ & _ & Hrp & _).
  rewrite Horigin in Hrp.
  eexists bytes, st2, _, robj. split; [done|]. split; [exact Hr|]. split; [done|].
  simpl. split; [apply lookup_insert_eq|]. intros Hk.
  rewrite (readContent_bytes robj _ (content_of obj bytes)).
  - by rewrite (content_of_kind robj obj), content_of_idem.
  - simpl. rewrite Hrp. apply lookup_insert_eq.
Qed.

Lemma store_then_retrieve_bytes_witness :
  exists bytes st2 fs2 robj,
    files disk !! getPath (FileFactory_createFileObject disk "b.txt") = Some bytes /\
    ObjectStore_retrieveObject
      (ObjectStore_storeObject (ObjectStore_new "objects") disk
         (FileFactory_createFileObject disk "b.txt")).1.1.1
      (ObjectStore_storeObject (ObjectStore_new "objects") disk
         (FileFactory_createFileObject disk "b.txt")).1.1.2 sha_empty
    = (st2, fs2, Ok (Some robj)) /\
    getPath robj = getPath (FileFactory_createFileObject disk "b.txt") /\
    files fs2 !! getPath (FileFactory_createFileObject disk "b.txt")
    = Some (content_of (FileFactory_createFileObject disk "b.txt") bytes) /\
    (isBinary robj = isBinary (FileFactory_createFileObject disk "b.txt") ->
     (readContent robj fs2).2
     = Ok (content_of (FileFactory_createFileObject disk "b.txt") bytes)).
Proof.
  apply (store_then_retrieve_bytes (ObjectStore_new "objects") disk
           (FileFactory_createFileObject disk "b.txt") sha_empty).
  - vm_compute. reflexivity.
  - vm_compute. reflexivity.
  - rewrite createFileObject_path. simpl. apply not_elem_of_empty.
Defined.

(** ** The hash cache *)

(** [getHash] returns the cached digest when there is one and the object is
    not dirty; otherwise it returns the digest of the content the object
    holds in memory, stores it and clears the dirty flag.  The content held
    is never changed, and no file is read. *)
Theorem getHash_cache (obj : FileObject) :
  (hash (base obj) <> "" -> isModified (base obj) = false ->
   getHash obj = (hash (base obj), obj)) /\
  (hash (base obj) = "" \/ isModified (base obj) = true ->
   (getHash obj).1 = computeHash obj /\
   hash (base (getHash obj).2) = computeHash obj /\
   isModified (base (getHash obj).2) = false) /\
  held_content (getHash obj).2 = held_content obj /\
  computeHash (getHash obj).2 = computeHash obj.
Proof.
  unfold getHash. split; [|split].
  - intros Hne Hclean. apply String.eqb_neq in Hne. by rewrite Hne, Hclean.
  - intros Hor.
    assert ((String.eqb (hash (base obj)) "" || isModified (base obj))%bool = true) as ->.
    { destruct Hor as [->| ->]; [reflexivity|apply orb_true_r]. }
    by destruct obj.
  - destruct (String.eqb (hash (base obj)) "" || isModified (base obj))%bool;
      by destruct obj.
Qed.

(** C3 at its failing input: an object the factory creates holds no content,
    and its first hash request returns the digest of the empty byte
    sequence without reading the file; on [a.txt] the bytes of the content,
    as [readContent] returns them, have another digest. *)
Theorem getHash_of_new_object :
  (forall (fs : FileSystem) (p : string),
     (getHash (FileFactory_createFileObject fs p)).1 = sha_empty) /\
  (readContent (FileFactory_createFileObject disk "a.txt") disk).2
  = Ok (list_ascii_of_string ("foo" +:+ LF +:+ "bar" +:+ LF)) /\
  hexString (SHA256 (list_ascii_of_string ("foo" +:+ LF +:+ "bar" +:+ LF)))
  = "d78931fcf2660108eec0d6674ecb4e02401b5256a6b5ee82527766ef6d198c67" /\
  (* a hash request after the read still returns the first digest *)
  (getHash (readContent (getHash (FileFactory_createFileObject disk "a.txt")).2 disk).1).1
  = sha_empty.
Proof.
  split.
  - intros fs p. unfold FileFactory_createFileObject.
    destruct (FileFactory_detectBinary fs p); vm_compute; reflexivity.
  - repeat split; vm_compute; reflexivity.
Qed.

(** ** Writing content *)

(** [TextFile::writeContent] never assigns [lines]; after a write that
    returned, the next hash request recomputes the digest from the lines
    held before the write, whatever bytes were written. *)
Lemma TextFile_writeContent_lines (t : TextFile) (fs : FileSystem) (bytes : list ascii) :
  lines (TextFile_writeContent t fs bytes).1.1 = lines t /\
  ((TextFile_writeContent t fs bytes).2 = Ok tt ->
   files (TextFile_writeContent t fs bytes).1.2 !! filepath (textBase t) = Some bytes /\
   isModified (textBase (TextFile_writeContent t fs bytes).1.1) = true /\
   (getHash (AsText (TextFile_writeContent t fs bytes).1.1)).1 = TextFile_computeHash t).
Proof.
  unfold TextFile_writeContent, ofstream_write.
  destruct (decide (filepath (textBase t) ∈ unwritable fs)); simpl; [done|].
  split; [done|]. intros _. split; [apply lookup_insert_eq|]. split; [done|].
  unfold getHash. simpl. by rewrite orb_true_r.
Qed.

(** [BinaryFile::writeContent] that returns has written the bytes to the
    file, holds them as its data and is dirty, so that the next hash request
    returns their digest. *)
Theorem BinaryFile_writeContent_updates
    (b : BinaryFile) (fs : FileSystem) (content : list ascii) :
  (BinaryFile_writeContent b fs content).2 = Ok tt ->
  files (BinaryFile_writeContent b fs content).1.2 !! filepath (binaryBase b) = Some content /\
  data (BinaryFile_writeContent b fs content).1.1 = content /\
  isModified (binaryBase (BinaryFile_writeContent b fs content).1.1) = true /\
  (getHash (AsBinary (BinaryFile_writeContent b fs content).1.1)).1
  = hexString (SHA256 content).
Proof.
  unfold BinaryFile_writeContent, ofstream_write.
  destruct (decide (filepath (binaryBase b) ∈ unwritable fs)); simpl; [done|].
  intros _. split; [apply lookup_insert_eq|]. split; [done|]. split; [done|].
  unfold getHash. simpl. by rewrite orb_true_r.
Qed.

Lemma BinaryFile_writeContent_updates_witness :
  files (BinaryFile_writeContent (BinaryFile_new "d.bin") disk ["x"%char]).1.2
    !! filepath (binaryBase (BinaryFile_new "d.bin")) = Some ["x"%char] /\
  data (BinaryFile_writeContent (BinaryFile_new "d.bin") disk ["x"%char]).1.1 = ["x"%char] /\
  isModified (binaryBase (BinaryFile_writeContent (BinaryFile_new "d.bin") disk ["x"%char]).1.1)
  = true /\
  (getHash (AsBinary (BinaryFile_writeContent (BinaryFile_new "d.bin") disk ["x"%char]).1.1)).1
  = hexString (SHA256 ["x"%char]).
Proof.
  apply (BinaryFile_writeContent_updates (BinaryFile_new "d.bin") disk ["x"%char]).
  vm_compute. reflexivity.
Defined.

(** C9 at its failing input: a text object on [c.txt] that holds the line
    ["baz"] is written the bytes of ["new"] and a line feed.  The write
    returns, the file holds the new bytes and the object is dirty, but it
    still holds the old line, and the next hash request returns the digest
    of the old content, not of the written bytes. *)
Theorem TextFile_writeContent_keeps_old_lines :
  let t := (TextFile_getLines (TextFile_new "c.txt") disk).1 in
  let written := list_ascii_of_string ("new" +:+ LF) in
  let r := TextFile_writeContent t disk written in
  lines t = ["baz"] /\
  r.2 = Ok tt /\
  files r.1.2 !! "c.txt" = Some written /\
  isModified (textBase r.1.1) = true /\
  lines r.1.1 = ["baz"] /\
  (getHash (AsText r.1.1)).1 = hexString (SHA256 (list_ascii_of_string ("baz" +:+ LF))) /\
  (getHash (AsText r.1.1)).1 <> hexString (SHA256 written).
Proof. vm_compute. repeat split; discriminate. Qed.

(** ** Line endings and the hash of text content *)

(** The [getline] loop splits at line feeds only: the lines loaded from a
    file with CR LF line ends keep the carriage return, so they are not the
    lines of the same text with LF line ends, and the digests differ. *)
Theorem crlf_lines_keep_carriage_return :
  lines (TextFile_readContent (TextFile_new "a.txt") disk).1 = ["foo"; "bar"] /\
  lines (TextFile_readContent (TextFile_new "w.txt") disk).1
  = ["foo" +:+ String "013"%char ""; "bar" +:+ String "013"%char ""] /\
  TextFile_computeHash (TextFile_readContent (TextFile_new "a.txt") disk).1
  <> TextFile_computeHash (TextFile_readContent (TextFile_new "w.txt") disk).1.
Proof. vm_compute. repeat split; discriminate. Qed.

(** ** Deduplication *)

Lemma storeObject_held st fs obj :
  ObjectStore_hasObject st fs (getHash obj).1 = Ok true ->
  ObjectStore_storeObject st fs obj = (st, fs, (getHash obj).2, Ok (getHash obj).1).
Proof.
  intros H. unfold ObjectStore_storeObject.
  destruct (getHash obj) as [h obj1]. simpl in H. by rewrite H.
Qed.

Lemma hasObject_after_store st fs obj h :
  (ObjectStore_storeObject st fs obj).2 = Ok h ->
  ObjectStore_hasObject (ObjectStore_storeObject st fs obj).1.1.1
                        (ObjectStore_storeObject st fs obj).1.1.2 h = Ok true.
Proof.
  unfold ObjectStore_storeObject.
  destruct (getHash obj) as [h' obj1].
  destruct (ObjectStore_hasObject st fs h') as [[|]|e] eqn:Hh; simpl.
  - by intros [= <-].
  - destruct (readContent obj1 fs) as [obj2 [content|e]]; simpl; [|discriminate].
    destruct (ObjectStore_getObjectPath st h') as [objPath|e]; simpl; [|discriminate].
    destruct (ofstream_write fs objPath content); simpl; [|discriminate].
    intros [= <-]. unfold ObjectStore_hasObject, StoragePool_contains. simpl.
    rewrite lookup_insert_eq. by rewrite bool_decide_eq_true_2.
  - discriminate.
Qed.

(** Storing an object whose hash request returns a hash that an earlier
    [storeObject] returned gives the same hash and changes neither the
    store, nor any file, nor the storage size. *)
Theorem storeObject_same_hash_noop
    (st : ObjectStore) (fs : FileSystem) (first second : FileObject) (h : string) :
  (ObjectStore_storeObject st fs first).2 = Ok h ->
  (getHash second).1 = h ->
  let st1 := (ObjectStore_storeObject st fs first).1.1.1 in
  let fs1 := (ObjectStore_storeObject st fs first).1.1.2 in
  ObjectStore_storeObject st1 fs1 second = (st1, fs1, (getHash second).2, Ok h) /\
  ObjectStore_getStorageSize (ObjectStore_storeObject st1 fs1 second).1.1.1
                             (ObjectStore_storeObject st1 fs1 second).1.1.2
  = ObjectStore_getStorageSize st1 fs1.
Proof.
  intros Hfirst Hsecond st1 fs1.
  pose proof (hasObject_after_store st fs first h Hfirst) as Hheld.
  fold st1 fs1 in Hheld. rewrite <- Hsecond in Hheld.
  rewrite (storeObject_held st1 fs1 second Hheld). by rewrite Hsecond.
Qed.

Lemma storeObject_same_hash_noop_witness :
  let st1 := (ObjectStore_storeObject (ObjectStore_new "objects") disk readFirst).1.1.1 in
  let fs1 := (ObjectStore_storeObject (ObjectStore_new "objects") disk readFirst).1.1.2 in
  ObjectStore_storeObject st1 fs1 (AsText fileA)
  = (st1, fs1, (getHash (AsText fileA)).2,
     Ok "d78931fcf2660108eec0d6674ecb4e02401b5256a6b5ee82527766ef6d198c67") /\
  ObjectStore_getStorageSize (ObjectStore_storeObject st1 fs1 (AsText fileA)).1.1.1
                             (ObjectStore_storeObject st1 fs1 (AsText fileA)).1.1.2
  = ObjectStore_getStorageSize st1 fs1.
Proof.
  apply (storeObject_same_hash_noop (ObjectStore_new "objects") disk readFirst
           (AsText fileA)
           "d78931fcf2660108eec0d6674ecb4e02401b5256a6b5ee82527766ef6d198c67").
  - vm_compute. reflexivity.
  - vm_compute. reflexivity.
Defined.

(** C4 at its failing input: [readFirst] and [hashedFirst] are text objects
    on two files with the same bytes, and both hold the same loaded lines.
    Stored one after the other in an empty store they get different hashes,
    the second call writes a second blob with the same bytes, and the
    storage size grows from 8 to 16 bytes. *)
Theorem identical_content_stored_twice :
  let s1 := ObjectStore_storeObject (ObjectStore_new "objects") disk readFirst in
  let s2 := ObjectStore_storeObject s1.1.1.1 s1.1.1.2 hashedFirst in
  files disk !! getPath readFirst = files disk !! getPath hashedFirst /\
  held_content readFirst = held_content hashedFirst /\
  s1.2 = Ok "d78931fcf2660108eec0d6674ecb4e02401b5256a6b5ee82527766ef6d198c67" /\
  s2.2 = Ok "e3b0c44298fc1c149afbf4c8996fb92427ae41e4649b934ca495991b7852b855" /\
  files s2.1.1.2
    !! "objects/d7/8931fcf2660108eec0d6674ecb4e02401b5256a6b5ee82527766ef6d198c67"
  = Some (list_ascii_of_string ("foo" +:+ LF +:+ "bar" +:+ LF)) /\
  files s2.1.1.2
    !! "objects/e3/b0c44298fc1c149afbf4c8996fb92427ae41e4649b934ca495991b7852b855"
  = Some (list_ascii_of_string ("foo" +:+ LF +:+ "bar" +:+ LF)) /\
  ObjectStore_getStorageSize s1.1.1.1 s1.1.1.2 = 8%nat /\
  ObjectStore_getStorageSize s2.1.1.1 s2.1.1.2 = 16%nat.
Proof. vm_compute. repeat split; reflexivity. Qed.

(** ** Edit scripts and the recurrence *)

Lemma lev_nil_l (b : list ascii) : lev [] b = length b.
Proof. by destruct b. Qed.

Lemma lev_nil_r (a : list ascii) : lev a [] = length a.
Proof. by destruct a. Qed.

Lemma lev_cons (x y : ascii) (a b : list ascii) :
  lev (x :: a) (y :: b)
  = if Ascii.eqb x y then lev a b
    else S (Nat.min (Nat.min (lev a (y :: b)) (lev (x :: a) b)) (lev a b)).
Proof. reflexivity. Qed.

Lemma EditScript_length (a b : list ascii) (n : nat) :
  EditScript a b n -> (length a <= length b + n)%nat /\ (length b <= length a + n)%nat.
Proof. induction 1; simpl; lia. Qed.

Lemma EditScript_sym (a b : list ascii) (n : nat) : EditScript a b n -> EditScript b a n.
Proof. induction 1; eauto using EditScript. Qed.

(** Dropping the head of the target costs at most one more. *)
Lemma EditScript_drop_target (a b : list ascii) (d : ascii) (n : nat) :
  EditScript a (d :: b) n -> exists n', (n' <= S n)%nat /\ EditScript a b n'.
Proof.
  intros H. remember (d :: b) as db eqn:E. revert b d E.
  induction H as [|c a b0 n H IH|c d0 a b0 n H IH|c a b0 n H IH|d0 a b0 n H IH];
    intros b d E.
  - discriminate.
  - injection E as -> ->. exists (S n). split; [lia|]. by apply edit_delete.
  - injection E as -> ->. exists (S n). split; [lia|]. by apply edit_delete.
  - destruct (IH b d E) as (n' & Hle & Hs). exists (S n'). split; [lia|].
    by apply edit_delete.
  - injection E as -> ->. exists n. split; [lia|]. done.
Qed.

Lemma EditScript_drop_source (a b : list ascii) (c : ascii) (n : nat) :
  EditScript (c :: a) b n -> exists n', (n' <= S n)%nat /\ EditScript a b n'.
Proof.
  intros H%EditScript_sym. destruct (EditScript_drop_target _ _ _ _ H) as (n' & Hle & Hs).
  exists n'. split; [done|]. by apply EditScript_sym.
Qed.

(** With equal heads, keeping the head is never worse. *)
Lemma EditScript_keep_optimal (a b : list ascii) (c : ascii) (n : nat) :
  EditScript (c :: a) (c :: b) n -> exists n', (n' <= n)%nat /\ EditScript a b n'.
Proof.
  intros H. inversion H as [|? ? ? ? H'|? ? ? ? ? H'|? ? ? ? H'|? ? ? ? H']; subst.
  - exists n. done.
  - eexists. split; [|exact H']. lia.
  - destruct (EditScript_drop_target _ _ _ _ H') as (n' & Hle & Hs).
    exists n'. split; [lia|done].
  - destruct (EditScript_drop_source _ _ _ _ H') as (n' & Hle & Hs).
    exists n'. split; [lia|done].
Qed.

(** The recurrence is the cost of a script ... *)
Lemma lev_script (a b : list ascii) : EditScript a b (lev a b).
Proof.
  revert b. induction a as [|x a IHa]; intros b.
  - induction b as [|y b IHb]; [constructor|].
    rewrite lev_nil_l in *. simpl. by apply edit_insert.
  - induction b as [|y b IHb].
    + rewrite lev_nil_r. simpl. apply edit_delete.
      specialize (IHa []). by rewrite lev_nil_r in IHa.
    + rewrite lev_cons. destruct (Ascii.eqb_spec x y) as [->|Hne].
      * by apply edit_keep.
      * destruct (Nat.min_spec (lev a (y :: b)) (lev (x :: a) b)) as [[_ ->]|[_ ->]];
          [destruct (Nat.min_spec (lev a (y :: b)) (lev a b)) as [[_ ->]|[_ ->]]
          |destruct (Nat.min_spec (lev (x :: a) b) (lev a b)) as [[_ ->]|[_ ->]]];
          eauto using EditScript.
Qed.

(** ... and no script is cheaper. *)
Lemma lev_least (a b : list ascii) (n : nat) : EditScript a b n -> (lev a b <= n)%nat.
Proof.
  revert b n. induction a as [|x a IHa]; intros b n H.
  - apply EditScript_length in H. rewrite lev_nil_l. simpl in *. lia.
  - revert n H. induction b as [|y b IHb]; intros n H.
    + rewrite lev_nil_r. apply EditScript_length in H. simpl in *. lia.
    + rewrite lev_cons. destruct (Ascii.eqb_spec x y) as [->|Hne].
      * destruct (EditScript_keep_optimal _ _ _ _ H) as (n' & Hle & Hs).
        apply IHa in Hs. lia.
      * inversion H as [|? ? ? ? H'|? ? ? ? ? H'|? ? ? ? H'|? ? ? ? H']; subst.
        -- done.
        -- apply IHa in H'. lia.
        -- apply IHa in H'. lia.
        -- apply IHb in H'. lia.
Qed.

Lemma lev_sym (a b : list ascii) : lev a b = lev b a.
Proof.
  apply Nat.le_antisymm; apply lev_least, EditScript_sym, lev_script.
Qed.

Lemma lev_bound (a b : list ascii) : (lev a b <= Nat.max (length a) (length b))%nat.
Proof.
  revert b. induction a as [|x a IHa]; intros b; [rewrite lev_nil_l; simpl; lia|].
  destruct b as [|y b]; [rewrite lev_nil_r; lia|].
  rewrite lev_cons. specialize (IHa b). simpl length.
  destruct (Ascii.eqb x y); lia.
Qed.

Lemma lev_refl (a : list ascii) : lev a a = 0%nat.
Proof.
  induction a as [|x a IH]; [reflexivity|]. rewrite lev_cons.
  by rewrite Ascii.eqb_refl.
Qed.

(** Scripts can be extended at the end, hence read backwards. *)
Lemma EditScript_snoc (a b : list ascii) (n : nat) (c d : ascii) :
  EditScript a b n ->
  EditScript (a ++ [c]) (b ++ [c]) n /\
  EditScript (a ++ [c]) (b ++ [d]) (S n) /\
  EditScript (a ++ [c]) b (S n) /\
  EditScript a (b ++ [d]) (S n).
Proof.
  induction 1 as [|x a b n H (IH1 & IH2 & IH3 & IH4)|x y a b n H (IH1 & IH2 & IH3 & IH4)
                 |x a b n H (IH1 & IH2 & IH3 & IH4)|y a b n H (IH1 & IH2 & IH3 & IH4)];
    simpl; repeat split; eauto using EditScript.
Qed.

Lemma EditScript_rev (a b : list ascii) (n : nat) :
  EditScript a b n -> EditScript (rev a) (rev b) n.
Proof.
  induction 1 as [|x a b n H IH|x y a b n H IH|x a b n H IH|y a b n H IH]; simpl.
  - constructor.
  - by destruct (EditScript_snoc _ _ _ x x IH) as (? & ? & ? & ?).
  - by destruct (EditScript_snoc _ _ _ x y IH) as (? & ? & ? & ?).
  - by destruct (EditScript_snoc _ _ _ x x IH) as (? & ? & ? & ?).
  - by destruct (EditScript_snoc _ _ _ y y IH) as (? & ? & ? & ?).
Qed.

Lemma lev_rev (a b : list ascii) : lev (rev a) (rev b) = lev a b.
Proof.
  apply Nat.le_antisymm; apply lev_least.
  - apply EditScript_rev, lev_script.
  - rewrite <- (rev_involutive a), <- (rev_involutive b) at 1.
    apply EditScript_rev, lev_script.
Qed.

(** ** The table of [calculateSimilarity] *)

(** A loop [for (k = start; k < start + count; k++)] keeps an invariant
    indexed by the loop variable. *)
Lemma for_loop_invariant {State : Type} (P : nat -> State -> Prop)
    (body : State -> nat -> State) (count start : nat) (s : State) :
  P start s ->
  (forall k s', (start <= k < start + count)%nat -> P k s' -> P (S k) (body s' k)) ->
  P (start + count)%nat (fold_left body (seq start count) s).
Proof.
  revert start s. induction count as [|count IH]; intros start s H0 Hstep; simpl.
  - by rewrite Nat.add_0_r.
  - replace (start + S count)%nat with (S start + count)%nat by lia.
    apply IH.
    + apply Hstep; [lia|done].
    + intros k s' Hk. apply Hstep. lia.
Qed.

Lemma dims_row dp rows cols i :
  dims dp rows cols -> (i < rows)%nat -> length (nth i dp []) = cols.
Proof.
  intros [Hlen Hall] Hi. rewrite Forall_lookup in Hall.
  destruct (nth_lookup_or_length dp i []) as [Hl|Hge]; [|lia]. by apply (Hall i).
Qed.

Lemma dims_set dp rows cols i j v : dims dp rows cols -> dims (dp_set dp i j v) rows cols.
Proof.
  intros [Hlen Hall]. unfold dp_set. split; [by rewrite length_insert|].
  destruct (decide (i < length dp)%nat) as [Hi|Hi].
  - apply Forall_insert; [done|]. rewrite length_insert.
    apply (dims_row dp rows cols); [done|lia].
  - rewrite list_insert_ge by lia. done.
Qed.

Lemma dp_get_set_eq dp rows cols i j v :
  dims dp rows cols -> (i < rows)%nat -> (j < cols)%nat ->
  dp_get (dp_set dp i j v) i j = v.
Proof.
  intros Hd Hi Hj. unfold dp_get, dp_set. destruct Hd as [Hlen Hall].
  rewrite (nth_lookup_Some _ i [] (<[j:=v]> (nth i dp []))).
  - apply nth_lookup_Some. apply list_lookup_insert_eq.
    rewrite (dims_row dp rows cols); done.
  - apply list_lookup_insert_eq. lia.
Qed.

Lemma dp_get_set_ne dp i j v i' j' :
  (i, j) <> (i', j') -> dp_get (dp_set dp i j v) i' j' = dp_get dp i' j'.
Proof.
  intros Hne. unfold dp_get, dp_set.
  destruct (decide (i = i')) as [<-|Hi].
  - assert (j <> j') as Hj by congruence.
    destruct (decide (i < length dp)%nat) as [Hlt|Hge].
    + rewrite (nth_lookup_Some _ i [] (<[j:=v]> (nth i dp [])))
        by (by apply list_lookup_insert_eq).
      rewrite !(nth_lookup _ j'). by rewrite list_lookup_insert_ne.
    + by rewrite list_insert_ge by lia.
  - rewrite !(nth_lookup _ i'). by rewrite list_lookup_insert_ne.
Qed.

Lemma length_list_ascii_of_string (s : string) :
  length (list_ascii_of_string s) = String.length s.
Proof. induction s as [|c s IH]; simpl; [reflexivity|]. by rewrite IH. Qed.

Lemma char_at_lookup (s : string) (k : nat) (c : ascii) :
  list_ascii_of_string s !! k = Some c -> char_at s k = c.
Proof.
  unfold char_at. revert k. induction s as [|x s IH]; intros k; [done|].
  destruct k as [|k]; simpl; [by intros [= ->]|]. apply IH.
Qed.

Section Table.
Variables text1 text2 : string.

Lemma prefix_distance_row0 (j : nat) :
  (j <= String.length text2)%nat -> prefix_distance text1 text2 0 j = Z.of_nat j.
Proof.
  intros Hj. unfold prefix_distance. simpl take. simpl rev.
  rewrite lev_nil_l, length_rev, length_take_le; [done|].
  by rewrite length_list_ascii_of_string.
Qed.

Lemma prefix_distance_col0 (i : nat) :
  (i <= String.length text1)%nat -> prefix_distance text1 text2 i 0 = Z.of_nat i.
Proof.
  intros Hi. unfold prefix_distance. simpl take. simpl rev.
  rewrite lev_nil_r, length_rev, length_take_le; [done|].
  by rewrite length_list_ascii_of_string.
Qed.

(** The recurrence on prefixes is the assignment in the inner loop. *)
Lemma prefix_distance_step (i j : nat) :
  (1 <= i <= String.length text1)%nat -> (1 <= j <= String.length text2)%nat ->
  prefix_distance text1 text2 i j
  = if Ascii.eqb (char_at text1 (i - 1)) (char_at text2 (j - 1))
    then prefix_distance text1 text2 (i - 1) (j - 1)
    else (1 + min3 (prefix_distance text1 text2 (i - 1) j) (prefix_distance text1 text2 i (j - 1))
                   (prefix_distance text1 text2 (i - 1) (j - 1)))%Z.
Proof.
  intros Hi Hj. unfold prefix_distance, min3.
  destruct i as [|i]; [lia|]. destruct j as [|j]; [lia|].
  replace (S i - 1)%nat with i by lia. replace (S j - 1)%nat with j by lia.
  destruct (lookup_lt_is_Some_2 (list_ascii_of_string text1) i) as [x Hx];
    [rewrite length_list_ascii_of_string; lia|].
  destruct (lookup_lt_is_Some_2 (list_ascii_of_string text2) j) as [y Hy];
    [rewrite length_list_ascii_of_string; lia|].
  rewrite (char_at_lookup _ _ _ Hx), (char_at_lookup _ _ _ Hy).
  rewrite (take_S_r _ _ _ Hx), (take_S_r _ _ _ Hy), !rev_unit, lev_cons.
  destruct (Ascii.eqb x y); [done|]. lia.
Qed.

Lemma filled_cell (i j : nat) (dp : list (list Z)) :
  (1 <= i <= String.length text1)%nat -> (1 <= j <= String.length text2)%nat ->
  filled text1 text2 i j dp ->
  filled text1 text2 i (S j) (dp_set dp i j (dp_cell text1 text2 dp i j)).
Proof.
  intros Hi Hj [Hd Hcells]. split; [by apply dims_set|].
  intros i' j' Hi' Hj' Hwhere.
  destruct (decide ((i, j) = (i', j'))) as [[= <- <-]|Hne].
  - rewrite (dp_get_set_eq _ _ _ _ _ _ Hd) by lia.
    rewrite (prefix_distance_step i j Hi Hj). unfold dp_cell.
    rewrite !Hcells by lia. done.
  - rewrite dp_get_set_ne by done. apply Hcells; [done..|].
    destruct (decide (i' = i)); [|lia].
    destruct (decide (j' = j)); [congruence|lia].
Qed.

Lemma filled_row (i : nat) (dp : list (list Z)) :
  (1 <= i <= String.length text1)%nat ->
  filled text1 text2 i 1 dp ->
  filled text1 text2 (S i) 1
    (fold_left (fun dp' j => dp_set dp' i j (dp_cell text1 text2 dp' i j))
               (seq 1 (String.length text2)) dp).
Proof.
  intros Hi H.
  pose proof (for_loop_invariant (filled text1 text2 i)
                (fun dp' j => dp_set dp' i j (dp_cell text1 text2 dp' i j))
                (String.length text2) 1 dp H) as Hloop.
  destruct Hloop as [Hd Hcells].
  { intros k s' Hk. apply filled_cell; [done|lia]. }
  split; [done|]. intros i' j' Hi' Hj' Hwhere. apply Hcells; [done..|]. lia.
Qed.

Lemma dp_table_filled :
  filled text1 text2 (S (String.length text1)) 1 (dp_table text1 text2).
Proof.
  unfold dp_table.
  set (m := String.length text1). set (n := String.length text2).
  set (dp0 := repeat (repeat 0%Z (n + 1)) (m + 1)).
  assert (dims dp0 (m + 1) (n + 1)) as Hd0.
  { split; [apply repeat_length|]. apply Forall_forall. intros row Hrow.
    apply list_elem_of_In, repeat_spec in Hrow. subst row. apply repeat_length. }
  (* first loop: dp[i][0] = i *)
  pose proof (for_loop_invariant
    (fun k dp => dims dp (m + 1) (n + 1) /\
                 forall i, (i < k)%nat -> dp_get dp i 0 = Z.of_nat i)
    (fun dp i => dp_set dp i 0 (Z.of_nat i)) (m + 1) 0 dp0) as H1.
  destruct H1 as [Hd1 Hcol].
  { split; [done|]. intros i Hi. lia. }
  { intros k dp [_ Hk] [Hd Hc]. split; [by apply dims_set|]. intros i Hi.
    destruct (decide (i = k)) as [->|Hne].
    - apply (dp_get_set_eq _ _ _ _ _ _ Hd); lia.
    - rewrite dp_get_set_ne by congruence. apply Hc. lia. }
  set (dp1 := fold_left _ (seq 0 (m + 1)) dp0) in *.
  (* second loop: dp[0][j] = j *)
  pose proof (for_loop_invariant
    (fun k dp => dims dp (m + 1) (n + 1) /\
                 (forall i, (i <= m)%nat -> dp_get dp i 0 = Z.of_nat i) /\
                 forall j, (j < k)%nat -> dp_get dp 0 j = Z.of_nat j)
    (fun dp j => dp_set dp 0 j (Z.of_nat j)) (n + 1) 0 dp1) as H2.
  destruct H2 as (Hd2 & Hcol2 & Hrow2).
  { split; [done|]. split; [intros i Hi; apply Hcol; lia|]. intros j Hj. lia. }
  { intros k dp [_ Hk] (Hd & Hc & Hr). split; [by apply dims_set|]. split.
    - intros i Hi. destruct (decide ((0, k) = (i, 0))%nat) as [[= <- ->]|Hne].
      + apply (dp_get_set_eq _ _ _ _ _ _ Hd); lia.
      + rewrite dp_get_set_ne by done. by apply Hc.
    - intros j Hj. destruct (decide (j = k)) as [->|Hne].
      + apply (dp_get_set_eq _ _ _ _ _ _ Hd); lia.
      + rewrite dp_get_set_ne by congruence. apply Hr. lia. }
  set (dp2 := fold_left _ (seq 0 (n + 1)) dp1) in *.
  (* the nested loops *)
  replace (S m) with (1 + m)%nat by lia.
  apply (for_loop_invariant (fun i dp => filled text1 text2 i 1 dp)).
  - split; [done|]. intros i' j' Hi' Hj' Hwhere.
    assert (i' = 0 \/ j' = 0)%nat as [-> | ->] by lia.
    + rewrite prefix_distance_row0 by done. apply Hrow2. lia.
    + rewrite prefix_distance_col0 by done. by apply Hcol2.
  - intros k dp Hk Hfilled. apply filled_row; [lia|done].
Qed.

(** The entry read after the loops is the distance of the two texts. *)
Lemma dp_table_distance :
  dp_get (dp_table text1 text2) (String.length text1) (String.length text2)
  = Z.of_nat (lev (list_ascii_of_string text1) (list_ascii_of_string text2)).
Proof.
  destruct dp_table_filled as [_ Hcells].
  rewrite Hcells by lia. unfold prefix_distance.
  rewrite !take_ge by (by rewrite length_list_ascii_of_string).
  by rewrite lev_rev.
Qed.
End Table.

(** ** Similarity *)

(** Scripts compose: the distance obeys the triangle inequality. *)
Lemma EditScript_refl (a : list ascii) : EditScript a a 0.
Proof. induction a; eauto using EditScript. Qed.

Lemma EditScript_compose (a b c : list ascii) (n m : nat) :
  EditScript a b n -> EditScript b c m ->
  exists k, (k <= n + m)%nat /\ EditScript a c k.
Proof.
  intros H. revert c m.
  induction H as [|x a b n H IH|x y a b n H IH|x a b n H IH|y a b n H IH]; intros c m H2.
  - exists m. split; [lia|done].
  - remember (x :: b) as xb eqn:E. revert E.
    induction H2 as [|z b' c' m H2 _|z d b' c' m H2 _|z b' c' m H2 _|d b' c' m H2 IH2];
      intros E.
    + discriminate.
    + injection E as -> ->. destruct (IH _ _ H2) as (k & Hk & Hs).
      exists k. split; [lia|]. by apply edit_keep.
    + injection E as -> ->. destruct (IH _ _ H2) as (k & Hk & Hs).
      exists (S k). split; [lia|]. by apply edit_substitute.
    + injection E as -> ->. destruct (IH _ _ H2) as (k & Hk & Hs).
      exists (S k). split; [lia|]. by apply edit_delete.
    + destruct (IH2 E) as (k & Hk & Hs).
      exists (S k). split; [lia|]. by apply edit_insert.
  - remember (y :: b) as yb eqn:E. revert E.
    induction H2 as [|z b' c' m H2 _|z d b' c' m H2 _|z b' c' m H2 _|d b' c' m H2 IH2];
      intros E.
    + discriminate.
    + injection E as -> ->. destruct (IH _ _ H2) as (k & Hk & Hs).
      exists (S k). split; [lia|]. by apply edit_substitute.
    + injection E as -> ->. destruct (IH _ _ H2) as (k & Hk & Hs).
      exists (S k). split; [lia|]. by apply edit_substitute.
    + injection E as -> ->. destruct (IH _ _ H2) as (k & Hk & Hs).
      exists (S k). split; [lia|]. by apply edit_delete.
    + destruct (IH2 E) as (k & Hk & Hs).
      exists (S k). split; [lia|]. by apply edit_insert.
  - destruct (IH _ _ H2) as (k & Hk & Hs).
    exists (S k). split; [lia|]. by apply edit_delete.
  - remember (y :: b) as yb eqn:E. revert E.
    induction H2 as [|z b' c' m H2 _|z d b' c' m H2 _|z b' c' m H2 _|d b' c' m H2 IH2];
      intros E.
    + discriminate.
    + injection E as -> ->. destruct (IH _ _ H2) as (k & Hk & Hs).
      exists (S k). split; [lia|]. by apply edit_insert.
    + injection E as -> ->. destruct (IH _ _ H2) as (k & Hk & Hs).
      exists (S k). split; [lia|]. by apply edit_insert.
    + injection E as -> ->. destruct (IH _ _ H2) as (k & Hk & Hs).
      exists k. split; [lia|]. done.
    + destruct (IH2 E) as (k & Hk & Hs).
      exists (S k). split; [lia|]. by apply edit_insert.
Qed.

Lemma lev_triangle (a b c : list ascii) : (lev a c <= lev a b + lev b c)%nat.
Proof.
  destruct (EditScript_compose a b c _ _ (lev_script a b) (lev_script b c))
    as (k & Hk & Hs).
  apply lev_least in Hs. lia.
Qed.

(** One edit anywhere is a script of cost one, and a script is a sequence
    of edits. *)
Lemma EditScript_prefix (pre a b : list ascii) (n : nat) :
  EditScript a b n -> EditScript (pre ++ a) (pre ++ b) n.
Proof. intros H. induction pre; simpl; eauto using EditScript. Qed.

Lemma Edit_script (a b : list ascii) : Edit a b -> EditScript a b 1.
Proof.
  intros [pre c post|pre c post|pre c d post]; apply EditScript_prefix;
    eauto using EditScript, EditScript_refl.
Qed.

Lemma Edit_cons (x : ascii) (a b : list ascii) : Edit a b -> Edit (x :: a) (x :: b).
Proof.
  intros [pre c post|pre c post|pre c d post].
  - apply (Edit_insert (x :: pre)).
  - apply (Edit_delete (x :: pre)).
  - apply (Edit_substitute (x :: pre)).
Qed.

Lemma Edits_cons (x : ascii) (a b : list ascii) (n : nat) :
  Edits a b n -> Edits (x :: a) (x :: b) n.
Proof. induction 1; eauto using Edits, Edit_cons. Qed.

Lemma EditScript_edits (a b : list ascii) (n : nat) : EditScript a b n -> Edits a b n.
Proof.
  induction 1 as [|x a b n H IH|x y a b n H IH|x a b n H IH|y a b n H IH].
  - constructor.
  - by apply Edits_cons.
  - apply (Edits_step _ (y :: a)); [apply (Edit_substitute [])|by apply Edits_cons].
  - apply (Edits_step _ a); [apply (Edit_delete [])|done].
  - apply (Edits_step _ (y :: a)); [apply (Edit_insert [])|by apply Edits_cons].
Qed.

Lemma Edits_lev (a b : list ascii) (n : nat) : Edits a b n -> (lev a b <= n)%nat.
Proof.
  induction 1 as [a|a b c n He Hs IH].
  - by rewrite lev_refl.
  - pose proof (lev_triangle a b c). pose proof (lev_least _ _ _ (Edit_script _ _ He)). lia.
Qed.

(** The recurrence computes the Levenshtein distance. *)
Lemma levenshteinDistance_lev (textA textB : string) :
  levenshteinDistance textA textB
    (lev (list_ascii_of_string textA) (list_ascii_of_string textB)).
Proof.
  split; [apply EditScript_edits, lev_script|]. intros n. apply Edits_lev.
Qed.

Lemma length_zero_empty (s : string) : String.length s = 0%nat <-> s = "".
Proof. destruct s; simpl; split; (done || discriminate). Qed.

(** ** Rounding in [calculateSimilarity] *)

(** What the two rounded operations of [calculateSimilarity] return, read
    off the definitions of [SpecFloat]. *)
Module Binary64.
Import SpecFloat.
Local Open Scope Z_scope.

Lemma digits2_pos_spec (p : positive) :
  2 ^ (Zpos (digits2_pos p) - 1) <= Zpos p < 2 ^ Zpos (digits2_pos p).
Proof.
  induction p as [p IH|p IH|]; simpl digits2_pos.
  - rewrite Pos2Z.inj_succ, Z.pow_succ_r by lia.
    replace (Z.succ (Zpos (digits2_pos p)) - 1) with (Z.succ (Zpos (digits2_pos p) - 1)) by lia.
    rewrite Z.pow_succ_r by lia. lia.
  - rewrite Pos2Z.inj_succ, Z.pow_succ_r by lia.
    replace (Z.succ (Zpos (digits2_pos p)) - 1) with (Z.succ (Zpos (digits2_pos p) - 1)) by lia.
    rewrite Z.pow_succ_r by lia. lia.
  - simpl. lia.
Qed.

Lemma Zdigits2_spec (z : Z) :
  0 < z -> 2 ^ (Zdigits2 z - 1) <= z < 2 ^ Zdigits2 z.
Proof. destruct z as [|p|p]; try lia. intros _. apply digits2_pos_spec. Qed.

Lemma Zdigits2_pos (z : Z) : 0 < z -> 0 < Zdigits2 z.
Proof. destruct z; simpl; lia. Qed.

Lemma Zdigits2_unique (z k : Z) :
  0 < z -> 2 ^ (k - 1) <= z < 2 ^ k -> Zdigits2 z = k.
Proof.
  intros Hz [Hlo Hhi]. pose proof (Zdigits2_spec z Hz) as [Hlo' Hhi'].
  pose proof (Zdigits2_pos z Hz) as Hd.
  assert (0 < k).
  { destruct (Z_lt_le_dec 0 k); [assumption|]. exfalso.
    assert (2 ^ k <= 1); [|lia].
    destruct (Z.eq_dec k 0) as [->|]; [simpl; lia|].
    rewrite Z.pow_neg_r by lia. lia. }
  assert (Zdigits2 z - 1 < k).
  { apply (Z.pow_lt_mono_r_iff 2); lia. }
  assert (k - 1 < Zdigits2 z).
  { apply (Z.pow_lt_mono_r_iff 2); lia. }
  lia.
Qed.

Lemma Zdigits2_mono (a b : Z) : 0 < a -> a <= b -> Zdigits2 a <= Zdigits2 b.
Proof.
  intros Ha Hab. pose proof (Zdigits2_spec a Ha) as [Hlo _].
  pose proof (Zdigits2_spec b ltac:(lia)) as [_ Hhi].
  assert (Zdigits2 a - 1 < Zdigits2 b); [|lia].
  apply (Z.pow_lt_mono_r_iff 2); [lia| |lia].
  pose proof (Zdigits2_pos b ltac:(lia)). lia.
Qed.

Lemma iter_xO (p n : positive) : Zpos (Pos.iter xO p n) = Zpos p * 2 ^ Zpos n.
Proof.
  induction n as [|n IH] using Pos.peano_ind.
  - simpl. lia.
  - rewrite Pos.iter_succ, Pos2Z.inj_xO, IH, Pos2Z.inj_succ, Z.pow_succ_r by lia. lia.
Qed.

Lemma shr_m_of_loc (m : Z) (l : location) : shr_m (shr_record_of_loc m l) = m.
Proof. destruct l as [|[]]; reflexivity. Qed.

Lemma shr_1_m (mrs : shr_record) : 0 <= shr_m mrs -> shr_m (shr_1 mrs) = shr_m mrs / 2.
Proof.
  intros Hm. rewrite <- Z.div2_div.
  destruct mrs as [m r s]. destruct m as [|[p|p|]|p]; try reflexivity.
  simpl in Hm. lia.
Qed.

Lemma iter_shr_1_m (n : positive) (mrs : shr_record) :
  0 <= shr_m mrs -> shr_m (iter_pos shr_1 n mrs) = shr_m mrs / 2 ^ Zpos n.
Proof.
  revert mrs. induction n as [n IH|n IH|]; intros mrs Hm; simpl iter_pos.
  - assert (0 <= shr_m (shr_1 mrs)) by (rewrite shr_1_m by lia; apply Z.div_pos; lia).
    assert (0 <= shr_m (iter_pos shr_1 n (shr_1 mrs)))
      by (rewrite IH by lia; apply Z.div_pos; [lia|apply Z.pow_pos_nonneg; lia]).
    rewrite IH, IH, shr_1_m by lia.
    rewrite !Z.div_div by (try lia; apply Z.pow_pos_nonneg; lia).
    f_equal. rewrite Pos2Z.inj_xI, <- Z.pow_add_r, <- Z.pow_succ_r by lia. f_equal. lia.
  - assert (0 <= shr_m (iter_pos shr_1 n mrs))
      by (rewrite IH by lia; apply Z.div_pos; [lia|apply Z.pow_pos_nonneg; lia]).
    rewrite IH, IH by lia.
    rewrite !Z.div_div by (try lia; apply Z.pow_pos_nonneg; lia).
    f_equal. rewrite Pos2Z.inj_xO, <- Z.pow_add_r by lia. f_equal. lia.
  - rewrite shr_1_m by lia. reflexivity.
Qed.

Lemma round_nearest_even_step (m : Z) (l : location) :
  round_nearest_even m l = m \/ round_nearest_even m l = m + 1.
Proof. destruct l as [|[]]; simpl; try (destruct (Z.even m)); auto. Qed.

(** Rounding a mantissa of at least 53 digits. *)
Lemma binary_round_aux_shape (m e : Z) (l : location) :
  0 < m -> 53 <= Zdigits2 m ->
  -1074 <= Zdigits2 m + e - 53 -> Zdigits2 m + e - 52 <= 971 ->
  exists c : Z,
    (c = m / 2 ^ (Zdigits2 m - 53) \/ c = m / 2 ^ (Zdigits2 m - 53) + 1) /\
    (l = loc_Exact -> Zdigits2 m = 53 -> c = m) /\
    2 ^ 52 <= c <= 2 ^ 53 /\
    binary_round_aux 53 1024 false m e l
    = if c <? 2 ^ 53 then S754_finite false (Z.to_pos c) (Zdigits2 m + e - 53)
      else S754_finite false (Z.to_pos (2 ^ 52)) (Zdigits2 m + e - 52).
Proof.
  intros Hm Hk Hlo Hhi. set (k := Zdigits2 m) in *.
  pose proof (Zdigits2_spec m Hm) as [Hml Hmh]. fold k in Hml, Hmh.
  assert (2 ^ 52 <= m / 2 ^ (k - 53) < 2 ^ 53) as Hq.
  { assert (0 < 2 ^ (k - 53)) by (apply Z.pow_pos_nonneg; lia).
    split.
    - apply Z.div_le_lower_bound; [lia|].
      rewrite <- Z.pow_add_r by lia. replace (k - 53 + 52) with (k - 1) by lia. lia.
    - apply Z.div_lt_upper_bound; [lia|].
      rewrite <- Z.pow_add_r by lia. replace (k - 53 + 53) with k by lia. lia. }
  unfold binary_round_aux, shr_fexp. fold k.
  assert (fexp 53 1024 (k + e) - e = k - 53) as -> by (unfold fexp, emin; lia).
  set (first := shr (shr_record_of_loc m l) e (k - 53)).
  assert (shr_m (fst first) = m / 2 ^ (k - 53) /\ snd first = k + e - 53 /\
          (k = 53 -> fst first = shr_record_of_loc m l)) as (Hfm & Hfe & Hfk).
  { unfold first, shr. destruct (k - 53) as [|n|n] eqn:En; try lia.
    - simpl fst. simpl snd. rewrite shr_m_of_loc, Z.div_1_r. repeat split; lia || auto.
    - simpl fst. simpl snd. rewrite iter_shr_1_m, shr_m_of_loc by (rewrite shr_m_of_loc; lia).
      repeat split; lia. }
  destruct first as [mrs' e']. simpl in Hfm, Hfe, Hfk. subst e'.
  set (c := round_nearest_even (shr_m mrs') (loc_of_shr_record mrs')).
  assert (c = m / 2 ^ (k - 53) \/ c = m / 2 ^ (k - 53) + 1) as Hc
    by (unfold c; rewrite <- Hfm; apply round_nearest_even_step).
  exists c. split; [exact Hc|]. split.
  { intros -> Hk53. unfold c. rewrite (Hfk Hk53). reflexivity. }
  split; [lia|].
  assert (0 < c) as Hcpos by lia.
  destruct (Z.ltb_spec c (2 ^ 53)) as [Hlt|Hge].
  - assert (Zdigits2 c = 53) as Hdc by (apply Zdigits2_unique; [lia|]; simpl (53 - 1); lia).
    rewrite Hdc.
    assert (fexp 53 1024 (53 + (k + e - 53)) - (k + e - 53) = 0) as ->
      by (unfold fexp, emin; lia).
    cbv beta iota delta [shr shr_record_of_loc shr_m].
    destruct c as [|pc|pc]; try lia. simpl Z.to_pos.
    destruct (Z.leb_spec (k + e - 53) (1024 - 53)); [reflexivity|lia].
  - assert (c = 2 ^ 53) as -> by lia.
    change (Zdigits2 (2 ^ 53)) with 54.
    assert (fexp 53 1024 (54 + (k + e - 53)) - (k + e - 53) = 1) as ->
      by (unfold fexp, emin; lia).
    change (shr (shr_record_of_loc (2 ^ 53) loc_Exact) (k + e - 53) 1)
      with (Build_shr_record 4503599627370496 false false, k + e - 53 + 1).
    cbv beta iota delta [shr_m]. change (Z.to_pos (2 ^ 52)) with 4503599627370496%positive.
    replace (k + e - 53 + 1) with (k + e - 52) by lia.
    destruct (Z.leb_spec (k + e - 52) (1024 - 53)); [reflexivity|lia].
Qed.

Lemma binary_round_small (p : positive) (e : Z) :
  Zdigits2 (Zpos p) <= 53 ->
  -1074 <= Zdigits2 (Zpos p) + e - 53 -> Zdigits2 (Zpos p) + e - 52 <= 971 ->
  exists m : positive,
    binary_round 53 1024 false p e = S754_finite false m (Zdigits2 (Zpos p) + e - 53) /\
    Zpos m = Zpos p * 2 ^ (53 - Zdigits2 (Zpos p)) /\
    Zdigits2 (Zpos m) = 53.
Proof.
  intros Hk Hlo Hhi.
  pose proof (Zdigits2_spec (Zpos p) ltac:(lia)) as [Hl Hh].
  pose proof (Zdigits2_pos (Zpos p) ltac:(lia)) as Hk0.
  unfold binary_round.
  change (Zpos (digits2_pos p)) with (Zdigits2 (Zpos p)).
  set (k := Zdigits2 (Zpos p)) in *.
  assert (fexp 53 1024 (k + e) = k + e - 53) as -> by (unfold fexp, emin; lia).
  assert (exists mz : positive,
            shl_align p e (k + e - 53) = (mz, k + e - 53) /\
            Zpos mz = Zpos p * 2 ^ (53 - k))
    as (mz & -> & Hmz).
  { unfold shl_align. destruct (k + e - 53 - e) as [|n|n] eqn:En; try lia.
    - exists p. split; [f_equal; lia|]. replace (53 - k) with 0 by lia. simpl. lia.
    - exists (Pos.iter xO p n). split; [reflexivity|].
      rewrite iter_xO. f_equal. f_equal. lia. }
  assert (Zdigits2 (Zpos mz) = 53) as Hd.
  { apply Zdigits2_unique; [lia|]. rewrite Hmz. split.
    - replace (53 - 1) with ((k - 1) + (53 - k)) by lia. rewrite Z.pow_add_r by lia.
      apply Z.mul_le_mono_nonneg_r; [apply Z.pow_nonneg; lia|lia].
    - replace 53 with (k + (53 - k)) at 2 by lia. rewrite Z.pow_add_r by lia.
      apply Z.mul_lt_mono_pos_r; [apply Z.pow_pos_nonneg; lia|lia]. }
  destruct (binary_round_aux_shape (Zpos mz) (k + e - 53) loc_Exact)
    as (c & _ & Hc & Hcb & ->); try (rewrite ?Hd; lia).
  rewrite (Hc eq_refl Hd). rewrite Hd.
  destruct (Z.ltb_spec (Zpos mz) (2 ^ 53)) as [_|Hge].
  - exists mz. simpl Z.to_pos. split; [f_equal; lia|]. split; [exact Hmz|exact Hd].
  - exfalso. pose proof (Zdigits2_spec (Zpos mz) ltac:(lia)) as [_ H]. rewrite Hd in H. lia.
Qed.

Lemma Zdigits2_bound (z b : Z) : 0 < z -> 0 <= b -> z < 2 ^ b -> Zdigits2 z <= b.
Proof.
  intros Hz Hb Hlt. pose proof (Zdigits2_spec z Hz) as [Hlo _].
  destruct (Z_le_gt_dec (Zdigits2 z) b); [assumption|]. exfalso.
  assert (2 ^ b <= 2 ^ (Zdigits2 z - 1)) by (apply Z.pow_le_mono_r; lia). lia.
Qed.

Lemma double_of_int_shape (z : Z) :
  0 < z < 2 ^ 53 ->
  exists m : positive,
    double_of_int z = S754_finite false m (Zdigits2 z - 53) /\
    Zpos m = z * 2 ^ (53 - Zdigits2 z) /\
    Zdigits2 (Zpos m) = 53.
Proof.
  intros [Hz Hz53]. destruct z as [|p|p]; try lia.
  pose proof (Zdigits2_bound (Zpos p) 53 Hz ltac:(lia) Hz53) as Hk.
  pose proof (Zdigits2_pos (Zpos p) Hz) as Hk0.
  unfold double_of_int, binary_normalize.
  destruct (binary_round_small p 0) as (m & Hm & Hv & Hd); try lia.
  exists m. rewrite Hm. split; [f_equal; lia|]. split; [exact Hv|exact Hd].
Qed.

Lemma SFdiv_finite (mx my : positive) (ex ey : Z) :
  Zdigits2 (Zpos mx) = 53 -> Zdigits2 (Zpos my) = 53 ->
  -1074 <= ex - ey - 53 ->
  double_div (S754_finite false mx ex) (S754_finite false my ey)
  = binary_round_aux 53 1024 false (Zpos mx * 2 ^ 53 / Zpos my) (ex - ey - 53)
      (new_location (Zpos my) (Zpos mx * 2 ^ 53 mod Zpos my)).
Proof.
  intros Hx Hy He. unfold double_div, SFdiv, SFdiv_core_binary. rewrite Hx, Hy.
  assert (Z.min (fexp 53 1024 (53 + ex - (53 + ey))) (ex - ey) = ex - ey - 53) as ->
    by (unfold fexp, emin; lia).
  replace (ex - ey - (ex - ey - 53)) with 53 by lia.
  rewrite Z.shiftl_mul_pow2 by lia.
  unfold Z.div, Z.modulo.
  destruct (Z.div_eucl (Zpos mx * 2 ^ 53) (Zpos my)) as [q r]. reflexivity.
Qed.

Lemma canonical_bounds (m : positive) : Zdigits2 (Zpos m) = 53 -> 2 ^ 52 <= Zpos m < 2 ^ 53.
Proof.
  intros H. pose proof (Zdigits2_spec (Zpos m) ltac:(lia)) as Hs. rewrite H in Hs.
  exact Hs.
Qed.

(** The quotient of two integers [0 < d < M < 2^31] is one or a canonical
    positive number below one. *)
Lemma double_div_below (d M : Z) :
  0 < d -> d < M -> M < 2 ^ 31 ->
  double_div (double_of_int d) (double_of_int M) = double_one \/
  exists m e,
    double_div (double_of_int d) (double_of_int M) = S754_finite false m e /\
    Zdigits2 (Zpos m) = 53 /\ -84 <= e <= -53.
Proof.
  intros Hd HdM HM.
  assert (2 ^ 31 < 2 ^ 53) as Hpow by (apply Z.pow_lt_mono_r; lia).
  destruct (double_of_int_shape d) as (mx & -> & Hmx & Hdx); [lia|].
  destruct (double_of_int_shape M) as (my & -> & Hmy & Hdy); [lia|].
  pose proof (Zdigits2_mono d M Hd ltac:(lia)) as Hmono.
  pose proof (Zdigits2_bound M 31 ltac:(lia) ltac:(lia) HM) as HkM.
  pose proof (Zdigits2_pos d Hd) as Hkd.
  set (kd := Zdigits2 d) in *. set (kM := Zdigits2 M) in *.
  pose proof (canonical_bounds mx Hdx) as Hbx. pose proof (canonical_bounds my Hdy) as Hby.
  rewrite SFdiv_finite by (assumption || lia).
  set (q := Zpos mx * 2 ^ 53 / Zpos my).
  assert (2 ^ 52 <= q < 2 ^ 54) as Hq.
  { unfold q. split.
    - apply Z.div_le_lower_bound; [lia|].
      replace (2 ^ 53) with (2 * 2 ^ 52) by reflexivity. nia.
    - apply Z.div_lt_upper_bound; [lia|].
      replace (2 ^ 54) with (2 * 2 ^ 53) by reflexivity. nia. }
  assert (Zdigits2 q = 53 \/ Zdigits2 q = 54) as Hkq.
  { destruct (Z_lt_le_dec q (2 ^ 53)).
    - left. apply Zdigits2_unique; [lia|]. simpl (53 - 1). lia.
    - right. apply Zdigits2_unique; [lia|]. simpl (54 - 1). lia. }
  assert (kd = kM -> Zdigits2 q = 53) as Hsame.
  { intros E. apply Zdigits2_unique; [lia|]. simpl (53 - 1). split; [lia|].
    unfold q. apply Z.div_lt_upper_bound; [lia|].
    assert (Zpos mx < Zpos my); [|nia].
    rewrite Hmx, Hmy, E. apply Z.mul_lt_mono_pos_r; [apply Z.pow_pos_nonneg; lia|lia]. }
  destruct (binary_round_aux_shape q (kd - 53 - (kM - 53) - 53)
              (new_location (Zpos my) (Zpos mx * 2 ^ 53 mod Zpos my)))
    as (c & _ & _ & Hcb & ->); try lia.
  destruct (Z.ltb_spec c (2 ^ 53)) as [Hlt|Hge].
  - right. eexists _, _. split; [reflexivity|].
    split; [|destruct (Z.eq_dec kd kM) as [E|E]; [specialize (Hsame E)|]; lia].
    apply Zdigits2_unique; [lia|]. rewrite Z2Pos.id by lia. simpl (53 - 1). lia.
  - destruct (Z.eq_dec (Zdigits2 q + (kd - 53 - (kM - 53) - 53) - 52) (-52)) as [E|E].
    + left. rewrite E. reflexivity.
    + right. eexists _, _. split; [reflexivity|]. split; [reflexivity|].
      destruct (Z.eq_dec kd kM) as [E'|E']; [specialize (Hsame E')|]; lia.
Qed.

Lemma binary_round_large (p : positive) (e : Z) :
  53 <= Zdigits2 (Zpos p) -> -1074 <= Zdigits2 (Zpos p) + e - 53 ->
  binary_round 53 1024 false p e = binary_round_aux 53 1024 false (Zpos p) e loc_Exact.
Proof.
  intros Hk Hlo. unfold binary_round.
  change (Zpos (digits2_pos p)) with (Zdigits2 (Zpos p)).
  assert (fexp 53 1024 (Zdigits2 (Zpos p) + e) = Zdigits2 (Zpos p) + e - 53) as ->
    by (unfold fexp, emin; lia).
  unfold shl_align.
  destruct (Zdigits2 (Zpos p) + e - 53 - e) as [|n|n] eqn:En; try lia; reflexivity.
Qed.

(** One minus a canonical positive number below one is again such a number. *)
Lemma double_sub_below (m : positive) (e : Z) :
  Zdigits2 (Zpos m) = 53 -> -84 <= e <= -53 ->
  exists m' e',
    double_sub double_one (S754_finite false m e) = S754_finite false m' e' /\
    Zdigits2 (Zpos m') = 53 /\ e' <= -53.
Proof.
  intros Hd He. pose proof (canonical_bounds m Hd) as Hb.
  change double_one with (S754_finite false 4503599627370496 (-52)).
  unfold double_sub, SFsub. rewrite Z.min_r by lia.
  assert (Zpos (fst (shl_align 4503599627370496 (-52) e)) = 2 ^ (- e)) as ->.
  { unfold shl_align. destruct (e - -52) as [|n|n] eqn:En; try lia.
    simpl fst. rewrite iter_xO. change (Zpos 4503599627370496) with (2 ^ 52).
    rewrite <- Z.pow_add_r by lia. f_equal. lia. }
  assert (fst (shl_align m e e) = m) as -> by (unfold shl_align; rewrite Z.sub_diag; reflexivity).
  unfold cond_Zopp.
  assert (2 ^ 53 <= 2 ^ (- e)) as Hpow by (apply Z.pow_le_mono_r; lia).
  set (N := 2 ^ (- e) - Zpos m).
  assert (0 < N) as HN by (unfold N; lia).
  assert (N < 2 ^ (- e)) as HNhi by (unfold N; lia).
  pose proof (Zdigits2_bound N (- e) HN ltac:(lia) HNhi) as Hk.
  pose proof (Zdigits2_pos N HN) as Hk0.
  destruct N as [|pN|pN] eqn:EN; try lia. unfold binary_normalize.
  set (k := Zdigits2 (Zpos pN)) in *.
  destruct (Z_le_gt_dec k 53) as [Hsmall|Hlarge].
  - destruct (binary_round_small pN e) as (m' & -> & _ & Hd'); try (fold k; lia).
    exists m', (k + e - 53). split; [reflexivity|]. split; [exact Hd'|lia].
  - rewrite binary_round_large by (fold k; lia).
    destruct (binary_round_aux_shape (Zpos pN) e loc_Exact) as (c & Hc & _ & Hcb & ->);
      try (fold k; lia).
    fold k in Hc |- *.
    assert (c < 2 ^ 53 \/ k + e <= -1) as Hcase.
    { destruct (Z.eq_dec k (- e)) as [E|E]; [left|right; lia].
      assert (Zpos pN / 2 ^ (k - 53) <= 2 ^ 53 - 2); [|lia].
      assert (0 < 2 ^ (k - 53)) by (apply Z.pow_pos_nonneg; lia).
      apply Z.lt_succ_r. apply Z.div_lt_upper_bound; [lia|].
      assert (2 ^ (k - 53) * 2 ^ 53 = 2 ^ (- e)) as Hp1
        by (rewrite <- Z.pow_add_r by lia; f_equal; lia).
      assert (2 ^ (k - 53) <= 2 ^ 31) as Hp2 by (apply Z.pow_le_mono_r; lia).
      assert (2 ^ 31 * 2 < 2 ^ 52) by (vm_compute; reflexivity).
      assert (Zpos pN = 2 ^ (- e) - Zpos m) as -> by lia.
      nia. }
    destruct (Z.ltb_spec c (2 ^ 53)) as [Hlt|Hge].
    + eexists _, _. split; [reflexivity|]. split; [|lia].
      apply Zdigits2_unique; [lia|]. rewrite Z2Pos.id by lia. simpl (53 - 1). lia.
    + eexists _, _. split; [reflexivity|]. split; [reflexivity|].
      destruct Hcase; lia.
Qed.

Lemma double_div_same (M : Z) :
  0 < M < 2 ^ 31 -> double_div (double_of_int M) (double_of_int M) = double_one.
Proof.
  intros HM.
  assert (2 ^ 31 < 2 ^ 53) as Hpow by (apply Z.pow_lt_mono_r; lia).
  destruct (double_of_int_shape M) as (my & -> & Hmy & Hdy); [lia|].
  pose proof (canonical_bounds my Hdy) as Hby.
  rewrite SFdiv_finite by (assumption || lia).
  rewrite (Z.mul_comm (Zpos my) (2 ^ 53)), Z.div_mul, Z.mod_mul by lia.
  replace (Zdigits2 M - 53 - (Zdigits2 M - 53) - 53) with (-53) by lia.
  assert (new_location (Zpos my) 0 = loc_Exact) as ->
    by (unfold new_location; destruct (Z.even (Zpos my)); reflexivity).
  vm_compute. reflexivity.
Qed.

Lemma ratio_result (d M : Z) :
  0 <= d <= M -> 0 < M < 2 ^ 31 ->
  (d = 0 ->
   double_sub double_one (double_div (double_of_int d) (double_of_int M)) = double_one) /\
  (0 < d ->
   double_sub double_one (double_div (double_of_int d) (double_of_int M)) <> double_one) /\
  double_ge (double_sub double_one (double_div (double_of_int d) (double_of_int M)))
            double_zero = true /\
  double_ge double_one
            (double_sub double_one (double_div (double_of_int d) (double_of_int M))) = true.
Proof.
  intros Hd HM.
  assert (2 ^ 31 < 2 ^ 53) as Hpow by (apply Z.pow_lt_mono_r; lia).
  destruct (Z.eq_dec d 0) as [->|Hd0].
  { destruct (double_of_int_shape M) as (my & -> & _ & _); [lia|].
    repeat split; try reflexivity. lia. }
  destruct (Z.eq_dec d M) as [->|HdM].
  { rewrite double_div_same by lia. repeat split; try reflexivity; try lia.
    intros _. discriminate. }
  destruct (double_div_below d M) as [->|(m & e & -> & Hdm & He)]; try lia.
  { repeat split; try reflexivity; try lia. intros _. discriminate. }
  destruct (double_sub_below m e Hdm He) as (m' & e' & -> & Hd' & He').
  split; [lia|]. split.
  - intros _. change double_one with (S754_finite false 4503599627370496 (-52)).
    intros [= _ E]. lia.
  - split; [reflexivity|].
    change double_one with (S754_finite false 4503599627370496 (-52)).
    unfold double_ge, SFleb, SFcompare.
    assert ((e' ?= -52) = Lt) as -> by (apply Z.compare_lt_iff; lia). reflexivity.
Qed.

End Binary64.

(** ** Similarity *)

(** The value returned when neither text is empty. *)
Lemma calculateSimilarity_nonempty (text1 text2 : string) :
  text1 <> "" -> text2 <> "" ->
  DiffEngine_calculateSimilarity text1 text2
  = double_sub double_one
      (double_div
         (double_of_int
            (Z.of_nat (lev (list_ascii_of_string text1) (list_ascii_of_string text2))))
         (double_of_int (Z.of_nat (Nat.max (String.length text1) (String.length text2))))).
Proof.
  intros H1 H2. unfold DiffEngine_calculateSimilarity.
  destruct text1 as [|c1 t1]; [done|]. destruct text2 as [|c2 t2]; [done|].
  cbn [String.length Nat.eqb andb orb]. by rewrite dp_table_distance.
Qed.

Lemma calculateSimilarity_sym (text1 text2 : string) :
  DiffEngine_calculateSimilarity text1 text2 = DiffEngine_calculateSimilarity text2 text1.
Proof.
  destruct (decide (text1 = "")) as [->|H1].
  { by destruct text2. }
  destruct (decide (text2 = "")) as [->|H2].
  { by destruct text1. }
  rewrite !calculateSimilarity_nonempty by done.
  by rewrite lev_sym, Nat.max_comm.
Qed.

(** Every cell of the finished table is a distance between two prefixes, so
    it is at most the larger length and fits an [int]. *)
Lemma dp_table_within_int (text1 text2 : string) (i j : nat) :
  (Z.of_nat (String.length text1) < INT_MAX)%Z ->
  (Z.of_nat (String.length text2) < INT_MAX)%Z ->
  (i <= String.length text1)%nat -> (j <= String.length text2)%nat ->
  (0 <= dp_get (dp_table text1 text2) i j < INT_MAX)%Z.
Proof.
  intros H1 H2 Hi Hj. destruct (dp_table_filled text1 text2) as [_ Hcells].
  rewrite Hcells by lia. unfold prefix_distance.
  pose proof (lev_bound (rev (take i (list_ascii_of_string text1)))
                        (rev (take j (list_ascii_of_string text2)))) as Hb.
  rewrite !length_rev, !length_take, !length_list_ascii_of_string in Hb. lia.
Qed.

Lemma ratio_in_range (text1 text2 : string) :
  (Z.of_nat (String.length text1) < INT_MAX)%Z ->
  (Z.of_nat (String.length text2) < INT_MAX)%Z ->
  text1 <> "" ->
  (0 <= Z.of_nat (lev (list_ascii_of_string text1) (list_ascii_of_string text2))
     <= Z.of_nat (Nat.max (String.length text1) (String.length text2)))%Z /\
  (0 < Z.of_nat (Nat.max (String.length text1) (String.length text2)) < 2 ^ 31)%Z.
Proof.
  intros H1 H2 Hne.
  pose proof (lev_bound (list_ascii_of_string text1) (list_ascii_of_string text2)) as Hb.
  rewrite !length_list_ascii_of_string in Hb.
  assert (0 < String.length text1)%nat by (destruct text1; [done|simpl; lia]).
  unfold INT_MAX in *. change (2 ^ 31)%Z with 2147483648%Z. lia.
Qed.

Lemma calculateSimilarity_same (text : string) :
  (Z.of_nat (String.length text) < INT_MAX)%Z ->
  DiffEngine_calculateSimilarity text text = double_one.
Proof.
  intros Hlen. destruct (decide (text = "")) as [->|Hne]; [reflexivity|].
  rewrite calculateSimilarity_nonempty by done.
  destruct (ratio_in_range text text Hlen Hlen Hne) as [Hd HM].
  destruct (Binary64.ratio_result _ _ Hd HM) as (Hzero & _).
  apply Hzero. by rewrite lev_refl.
Qed.

Lemma calculateSimilarity_range (text1 text2 : string) :
  (Z.of_nat (String.length text1) < INT_MAX)%Z ->
  (Z.of_nat (String.length text2) < INT_MAX)%Z ->
  double_ge (DiffEngine_calculateSimilarity text1 text2) double_zero = true /\
  double_ge double_one (DiffEngine_calculateSimilarity text1 text2) = true.
Proof.
  intros Hlen1 Hlen2.
  destruct (decide (text1 = "")) as [->|H1].
  { by destruct text2. }
  destruct (decide (text2 = "")) as [->|H2].
  { by destruct text1. }
  rewrite calculateSimilarity_nonempty by done.
  destruct (ratio_in_range text1 text2 Hlen1 Hlen2 H1) as [Hd HM].
  destruct (Binary64.ratio_result _ _ Hd HM) as (_ & _ & Hlo & Hhi). by split.
Qed.

(** C6: for texts whose lengths fit an [int], [calculateSimilarity] is
    [1.0] for two empty texts, [0.0] when exactly one text is empty, and
    otherwise one minus the Levenshtein distance (the least number of
    single-character insertions, deletions and substitutions that turn one
    text into the other) divided by the larger length, computed in [double]
    with the quotient and the difference each rounded to the nearest value;
    no cell of the table leaves the range of [int]; the result is [0.0] on
    the empty text against ["abc"] and [1.0] on every text against itself,
    it lies between [0.0] and [1.0], and it does not depend on the order of
    the arguments. *)
Theorem calculateSimilarity_levenshtein (textA textB : string) :
  (Z.of_nat (String.length textA) < INT_MAX)%Z ->
  (Z.of_nat (String.length textB) < INT_MAX)%Z ->
  (exists d : nat,
     levenshteinDistance textA textB d /\
     (d <= Nat.max (String.length textA) (String.length textB))%nat /\
     DiffEngine_calculateSimilarity textA textB
     = if ((String.length textA =? 0) && (String.length textB =? 0))%nat then double_one
       else if ((String.length textA =? 0) || (String.length textB =? 0))%nat
            then double_zero
            else double_sub double_one
                   (double_div (double_of_int (Z.of_nat d))
                      (double_of_int
                         (Z.of_nat (Nat.max (String.length textA) (String.length textB)))))) /\
  (forall i j,
     (i <= String.length textA)%nat -> (j <= String.length textB)%nat ->
     (0 <= dp_get (dp_table textA textB) i j < INT_MAX)%Z) /\
  DiffEngine_calculateSimilarity "" "" = double_one /\
  (textA <> "" ->
   DiffEngine_calculateSimilarity textA "" = double_zero /\
   DiffEngine_calculateSimilarity "" textA = double_zero) /\
  DiffEngine_calculateSimilarity "" "abc" = double_zero /\
  DiffEngine_calculateSimilarity "abc" "abc" = double_one /\
  DiffEngine_calculateSimilarity textA textA = double_one /\
  (double_ge (DiffEngine_calculateSimilarity textA textB) double_zero = true /\
   double_ge double_one (DiffEngine_calculateSimilarity textA textB) = true) /\
  DiffEngine_calculateSimilarity textA textB = DiffEngine_calculateSimilarity textB textA.
Proof.
  intros HlenA HlenB.
  split; [|split; [|split; [|split; [|split; [|split; [|split; [|split]]]]]]].
  - exists (lev (list_ascii_of_string textA) (list_ascii_of_string textB)).
    split; [apply levenshteinDistance_lev|]. split.
    { pose proof (lev_bound (list_ascii_of_string textA) (list_ascii_of_string textB)) as Hb.
      by rewrite !length_list_ascii_of_string in Hb. }
    destruct (decide (textA = "")) as [->|HA]; [|destruct (decide (textB = "")) as [->|HB]].
    + by destruct textB.
    + by destruct textA.
    + rewrite calculateSimilarity_nonempty by done.
      destruct textA; [done|]. destruct textB; [done|]. reflexivity.
  - intros i j. by apply dp_table_within_int.
  - reflexivity.
  - intros HA. destruct textA; [done|]. split; reflexivity.
  - reflexivity.
  - vm_compute. reflexivity.
  - by apply calculateSimilarity_same.
  - by apply calculateSimilarity_range.
  - apply calculateSimilarity_sym.
Qed.

Lemma calculateSimilarity_levenshtein_witness :
  DiffEngine_calculateSimilarity "abc" "abd"
  = double_sub double_one (double_div (double_of_int 1) (double_of_int 3)) /\
  double_ge (DiffEngine_calculateSimilarity "abc" "abd") double_zero = true /\
  double_ge double_one (DiffEngine_calculateSimilarity "abc" "abd") = true /\
  DiffEngine_calculateSimilarity "abc" "abd" = DiffEngine_calculateSimilarity "abd" "abc".
Proof.
  destruct (calculateSimilarity_levenshtein "abc" "abd")
    as (_ & _ & _ & _ & _ & _ & _ & [Hlo Hhi] & Hsym).
  - vm_compute. reflexivity.
  - vm_compute. reflexivity.
  - split; [vm_compute; reflexivity|]. split; [exact Hlo|]. split; [exact Hhi|exact Hsym].
Defined.

(** ** The shape of digests *)

Lemma SHA256_length (content : list ascii) : length (SHA256 content) = SHA256_DIGEST_LENGTH.
Proof.
  unfold SHA256, Sha.sha256, Sha.digest_bytes, Sha.be_bytes.
  rewrite length_map, !length_app, !length_map. reflexivity.
Qed.

Lemma hexByte_hex (b : ascii) :
  String.length (hexByte b) = 2%nat /\
  forallb is_hex (list_ascii_of_string (hexByte b)) = true.
Proof. destruct b as [[] [] [] [] [] [] [] []]; vm_compute; done. Qed.

Lemma length_append (a b : string) :
  String.length (a +:+ b) = (String.length a + String.length b)%nat.
Proof.
  induction a as [|x a IH]; [reflexivity|]. rewrite append_String. simpl. by rewrite IH.
Qed.

Lemma hexString_hex (digest : list ascii) :
  String.length (hexString digest) = (2 * length digest)%nat /\
  forallb is_hex (list_ascii_of_string (hexString digest)) = true.
Proof.
  induction digest as [|b rest [IHl IHh]]; [done|].
  change (hexString (b :: rest)) with (hexByte b +:+ hexString rest).
  destruct (hexByte_hex b) as [Hl Hh]. split.
  - rewrite length_append, Hl, IHl. simpl. lia.
  - rewrite list_ascii_of_string_app, forallb_app, Hh, IHh. done.
Qed.

Lemma computeHash_digest (obj : FileObject) : is_digest (computeHash obj).
Proof.
  destruct obj as [t|b]; unfold computeHash, TextFile_computeHash, BinaryFile_computeHash;
    match goal with |- is_digest (hexString ?d) =>
      destruct (hexString_hex d) as [Hl Hh]; rewrite SHA256_length in Hl end;
    by split.
Qed.

(** [getHash] never returns an empty or partial digest: on an object whose
    cached hash is empty or complete it returns 64 lower-case hexadecimal
    characters, and the cache is complete afterwards. *)
Theorem getHash_complete_digest (obj : FileObject) :
  hash (base obj) = "" \/ is_digest (hash (base obj)) ->
  is_digest (getHash obj).1 /\ is_digest (hash (base (getHash obj).2)).
Proof.
  intros Hinv. unfold getHash.
  destruct (String.eqb_spec (hash (base obj)) "") as [Hempty|Hfull]; simpl.
  - pose proof (computeHash_digest obj). by destruct obj.
  - destruct Hinv as [?|Hd]; [done|].
    destruct (isModified (base obj)); simpl; [|done].
    pose proof (computeHash_digest obj). by destruct obj.
Qed.

Lemma getHash_complete_digest_witness :
  is_digest (getHash readFirst).1 /\ is_digest (hash (base (getHash readFirst).2)).
Proof. apply (getHash_complete_digest readFirst). left. reflexivity. Defined.

(** ** The greedy line diff *)

Lemma side_cons_mark (mark : ascii) (l : string) (diff : list string) :
  side mark ((String mark "" +:+ l) :: diff) = l :: side mark diff.
Proof.
  change (String mark "" +:+ l) with (String mark l). unfold side. simpl.
  by rewrite Ascii.eqb_refl, orb_true_r.
Qed.

Lemma side_cons_context (mark : ascii) (l : string) (diff : list string) :
  side mark ((" " +:+ l) :: diff) = l :: side mark diff.
Proof. change (" " +:+ l) with (String " " l). reflexivity. Qed.

Lemma side_cons_other (mark other : ascii) (l : string) (diff : list string) :
  Ascii.eqb other " " = false -> Ascii.eqb other mark = false ->
  side mark ((String other "" +:+ l) :: diff) = side mark diff.
Proof.
  intros H1 H2. change (String other "" +:+ l) with (String other l).
  unfold side. simpl. by rewrite H1, H2.
Qed.

Lemma diffLoop_sides (oldLines newLines : list string) :
  side "-" (diffLoop oldLines newLines) = oldLines /\
  side "+" (diffLoop oldLines newLines) = newLines.
Proof.
  revert newLines. induction oldLines as [|o olds IHo]; intros newLines.
  - induction newLines as [|n news [IH1 IH2]]; [done|].
    change (diffLoop [] (n :: news)) with (("+" +:+ n) :: diffLoop [] news).
    rewrite (side_cons_mark "+"), (side_cons_other "-" "+") by done.
    by rewrite IH1, IH2.
  - induction newLines as [|n news [IH1 IH2]].
    + change (diffLoop (o :: olds) []) with (("-" +:+ o) :: diffLoop olds []).
      destruct (IHo []) as [H1 H2].
      rewrite (side_cons_mark "-"), (side_cons_other "+" "-") by done.
      by rewrite H1, H2.
    + change (diffLoop (o :: olds) (n :: news))
        with (if String.eqb o n then (" " +:+ o) :: diffLoop olds news
              else if String.ltb o n then ("-" +:+ o) :: diffLoop olds (n :: news)
              else ("+" +:+ n) :: diffLoop (o :: olds) news).
      destruct (String.eqb_spec o n) as [->|Hne].
      * destruct (IHo news) as [H1 H2]. rewrite !side_cons_context. by rewrite H1, H2.
      * destruct (String.ltb o n).
        -- destruct (IHo (n :: news)) as [H1 H2].
           rewrite (side_cons_mark "-"), (side_cons_other "+" "-") by done.
           by rewrite H1, H2.
        -- rewrite (side_cons_mark "+"), (side_cons_other "-" "+") by done.
           by rewrite IH1, IH2.
Qed.

(** Every diff is the two header lines followed by a body from which both
    files can be read back: the context and removed lines, in order, are the
    old lines, and the context and added lines are the new lines. *)
Theorem computeDiff_sides (algo : DiffAlgorithm) (oldLines newLines : list string) :
  exists body,
    computeDiff algo oldLines newLines = "--- old" :: "+++ new" :: body /\
    side "-" body = oldLines /\
    side "+" body = newLines.
Proof.
  exists (diffLoop oldLines newLines). split; [by destruct algo|].
  apply diffLoop_sides.
Qed.

(** ** Eviction from the cache *)

(** A full pool gives up its least key, whatever key is stored. *)
Example store_evicts_least_key :
  let p0 : StoragePool nat := StoragePool_new 2 in
  let p2 := StoragePool_store (StoragePool_store p0 "b" 1%nat) "a" 2%nat in
  let p3 := StoragePool_store p2 "c" 3%nat in
  StoragePool_contains p3 "a" = false /\
  StoragePool_contains p3 "b" = true /\
  StoragePool_contains p3 "c" = true /\
  StoragePool_size p3 = 2%nat.
Proof. vm_compute. done. Qed.

Example session_leaves_one_entry :
  StoragePool_size
    (objectPool (run session (mkStore "objects" (StoragePool_new 1) ∅, disk)).1) = 1%nat.
Proof. vm_compute. reflexivity. Qed.

(** ** The final line feed *)

Lemma getlines_final_newline (stream : list ascii) (line : string) (extracted : bool) :
  ends_with_newline stream = false ->
  stream <> [] \/ extracted = true ->
  getlines line extracted (stream ++ [newline]) = getlines line extracted stream.
Proof.
  revert line extracted. induction stream as [|c rest IH]; intros line extracted Hend Hne.
  - destruct Hne as [Hne|Hne]; [done|]. subst extracted. reflexivity.
  - change ((c :: rest) ++ [newline]) with (c :: (rest ++ [newline])). cbn [getlines].
    assert (ends_with_newline rest = false) as Hrest.
    { destruct rest; [done|]. by rewrite ends_with_newline_cons in Hend. }
    destruct (Ascii.eqb_spec c newline) as [->|Hc].
    + f_equal. apply IH; [done|]. left. intros ->. done.
    + apply IH; [done|]. by right.
Qed.

(** A text file that lacks the final line feed loads the same lines as the
    file with the line feed added, so the two hash identically. *)
Theorem final_newline_same_lines (fs : FileSystem) (p q : string) (bytes : list ascii) :
  files fs !! p = Some bytes ->
  files fs !! q = Some (terminated bytes) ->
  lines (TextFile_readContent (TextFile_new p) fs).1
  = lines (TextFile_readContent (TextFile_new q) fs).1 /\
  (getHash (AsText (TextFile_readContent (TextFile_new p) fs).1)).1
  = (getHash (AsText (TextFile_readContent (TextFile_new q) fs).1)).1.
Proof.
  intros Hp Hq.
  assert (lines (TextFile_readContent (TextFile_new p) fs).1
          = lines (TextFile_readContent (TextFile_new q) fs).1) as Hl.
  { unfold TextFile_readContent, ifstream_read. simpl. rewrite Hp, Hq. simpl.
    unfold terminated. destruct bytes as [|c rest]; [done|].
    destruct (ends_with_newline (c :: rest)) eqn:E; [done|].
    symmetry. apply getlines_final_newline; [done|by left]. }
  split; [done|].
  unfold getHash, TextFile_readContent, ifstream_read. simpl. rewrite Hp, Hq. simpl.
  unfold TextFile_computeHash. simpl.
  unfold TextFile_readContent, ifstream_read in Hl. simpl in Hl. rewrite Hp, Hq in Hl.
  simpl in Hl. by rewrite Hl.
Qed.

Lemma final_newline_same_lines_witness :
  lines (TextFile_readContent (TextFile_new "b.txt") disk).1
  = lines (TextFile_readContent (TextFile_new "a.txt") disk).1 /\
  (getHash (AsText (TextFile_readContent (TextFile_new "b.txt") disk).1)).1
  = (getHash (AsText (TextFile_readContent (TextFile_new "a.txt") disk).1)).1.
Proof.
  apply (final_newline_same_lines disk "b.txt" "a.txt"
           (list_ascii_of_string ("foo" +:+ LF +:+ "bar"))).
  - vm_compute. reflexivity.
  - vm_compute. reflexivity.
Defined.

(** ** Lines written and read back *)

Lemma one_line_empty : one_line "".
Proof. unfold one_line. simpl. apply not_elem_of_nil. Qed.

Lemma one_line_snoc (l : string) (c : ascii) :
  one_line l -> c <> newline -> one_line (l +:+ String c "").
Proof.
  unfold one_line. rewrite list_ascii_of_string_app. simpl.
  intros Hl Hc [H|H]%elem_of_app; [done|].
  apply list_elem_of_singleton in H. congruence.
Qed.

Lemma getlines_one_line (l acc : string) (extracted : bool) (rest : list ascii) :
  one_line l ->
  getlines acc extracted (list_ascii_of_string l ++ newline :: rest)
  = (acc +:+ l) :: getlines "" false rest.
Proof.
  revert acc extracted. induction l as [|c l IH]; intros acc extracted Hl.
  - simpl. by rewrite append_empty_r.
  - unfold one_line in Hl. simpl in Hl. apply not_elem_of_cons in Hl as [Hc Hl].
    simpl. destruct (Ascii.eqb_spec c newline) as [->|_]; [done|].
    rewrite IH by done. by rewrite append_assoc.
Qed.

Lemma getlines_joinLines (ls : list string) :
  Forall one_line ls -> getlines "" false (list_ascii_of_string (joinLines ls)) = ls.
Proof.
  induction 1 as [|l ls Hl _ IH]; [reflexivity|].
  rewrite joinLines_cons, !list_ascii_of_string_app. simpl.
  rewrite getlines_one_line by done. by rewrite append_empty_l, IH.
Qed.

Lemma getlines_lines (stream : list ascii) (acc : string) (extracted : bool) :
  one_line acc -> Forall one_line (getlines acc extracted stream).
Proof.
  revert acc extracted. induction stream as [|c rest IH]; intros acc extracted Hacc.
  - simpl. destruct extracted; [by apply Forall_singleton|constructor].
  - simpl. destruct (Ascii.eqb_spec c newline) as [->|Hc].
    + constructor; [done|]. apply IH, one_line_empty.
    + apply IH. by apply one_line_snoc.
Qed.

(** [TextFile::readContent] inverts the joining of lines: the lines it loads
    never contain a line feed, and from a file that holds lines without line
    feeds, each followed by one line feed, it loads exactly these lines and
    returns exactly the bytes of the file.  Any other character, a carriage
    return included, stays in its line. *)
Theorem readContent_inverts_joinLines (t : TextFile) (fs : FileSystem) :
  (forall bytes,
     files fs !! filepath (textBase t) = Some bytes ->
     Forall one_line (lines (TextFile_readContent t fs).1)) /\
  (forall ls,
     Forall one_line ls ->
     files fs !! filepath (textBase t) = Some (list_ascii_of_string (joinLines ls)) ->
     lines (TextFile_readContent t fs).1 = ls /\
     (TextFile_readContent t fs).2 = Ok (list_ascii_of_string (joinLines ls))).
Proof.
  unfold TextFile_readContent, ifstream_read. split.
  - intros bytes ->. simpl. apply getlines_lines, one_line_empty.
  - intros ls Hls ->. simpl. by rewrite getlines_joinLines.
Qed.

Lemma readContent_inverts_joinLines_witness :
  lines (TextFile_readContent (TextFile_new "w.txt") disk).1
  = ["foo" +:+ String "013"%char ""; "bar" +:+ String "013"%char ""] /\
  (TextFile_readContent (TextFile_new "w.txt") disk).2
  = Ok (list_ascii_of_string
          (joinLines ["foo" +:+ String "013"%char ""; "bar" +:+ String "013"%char ""])).
Proof.
  apply (proj2 (readContent_inverts_joinLines (TextFile_new "w.txt") disk)).
  - repeat constructor; vm_compute; intros H; repeat (inversion H as [|? ? ? H']; clear H; rename H' into H).
  - vm_compute. reflexivity.
Defined.

(** ** Lazy loading of lines *)

(** [getLines] reads the file only while the object holds no line.  Once it
    holds some, it returns them whatever the file has become; an object
    whose file is empty holds none and reads the file again at every call;
    and when the file cannot be opened the exception of [readContent]
    reaches the caller with the object unchanged. *)
Theorem getLines_reads_only_when_empty (t : TextFile) (fs : FileSystem) :
  (lines t <> [] -> TextFile_getLines t fs = (t, Ok (lines t))) /\
  (lines t = [] ->
   forall bytes, files fs !! filepath (textBase t) = Some bytes ->
     TextFile_getLines t fs
     = (mkText (textBase t) (getlines "" false bytes) (encoding t),
        Ok (getlines "" false bytes))) /\
  (lines t = [] ->
   files fs !! filepath (textBase t) = None ->
   TextFile_getLines t fs = (t, Throw ("Cannot open file: " +:+ filepath (textBase t)))) /\
  (forall fs', lines (TextFile_getLines t fs).1 <> [] ->
     TextFile_getLines (TextFile_getLines t fs).1 fs'
     = ((TextFile_getLines t fs).1, Ok (lines (TextFile_getLines t fs).1))).
Proof.
  unfold TextFile_getLines at 1 2 3. split; [|split; [|split]].
  - intros H. by destruct (lines t).
  - intros -> bytes Hb. unfold TextFile_readContent, ifstream_read. by rewrite Hb.
  - intros -> Hb. unfold TextFile_readContent, ifstream_read. by rewrite Hb.
  - intros fs' H. unfold TextFile_getLines at 1.
    by destruct (lines (TextFile_getLines t fs).1).
Qed.

(** [setLines] replaces the content without touching any file: the next
    hash request returns the digest of the new lines, each followed by a
    line feed, whatever digest was cached, and [getLines] returns the new
    lines when there is at least one. *)
Theorem setLines_then_getHash (t : TextFile) (newLines : list string) :
  (getHash (AsText (TextFile_setLines t newLines))).1
  = hexString (SHA256 (list_ascii_of_string (joinLines newLines))) /\
  isModified (base (getHash (AsText (TextFile_setLines t newLines))).2) = false /\
  held_content (getHash (AsText (TextFile_setLines t newLines))).2 = inl newLines /\
  (newLines <> [] ->
   forall fs, TextFile_getLines (TextFile_setLines t newLines) fs
              = (TextFile_setLines t newLines, Ok newLines)).
Proof.
  unfold getHash. simpl. rewrite orb_true_r. simpl.
  repeat split. intros Hne fs. unfold TextFile_getLines. simpl. by destruct newLines.
Qed.

(** ** What no call on a text object changes *)

Lemma TextFile_getHash_agrees (t : TextFile) :
  getHash (AsText t) = ((TextFile_getHash t).1, AsText (TextFile_getHash t).2).
Proof.
  unfold getHash, TextFile_getHash. simpl.
  by destruct (String.eqb (hash (textBase t)) "" || isModified (textBase t))%bool.
Qed.

Lemma text_call_keeps (w : TextFile * FileSystem) (c : TextCall) :
  filepath (textBase (text_call w c).1) = filepath (textBase w.1) /\
  fileSize (textBase (text_call w c).1) = fileSize (textBase w.1) /\
  encoding (text_call w c).1 = encoding w.1 /\
  unwritable (text_call w c).2 = unwritable w.2.
Proof.
  destruct w as [t fs]. destruct c as [|bytes| |newLines|]; simpl.
  - unfold TextFile_readContent. by destruct (ifstream_read fs _).
  - unfold TextFile_writeContent, ofstream_write.
    by destruct (decide (filepath (textBase t) ∈ unwritable fs)).
  - unfold TextFile_getLines, TextFile_readContent.
    destruct (lines t); [|done]. by destruct (ifstream_read fs _).
  - done.
  - unfold TextFile_getHash.
    by destruct (String.eqb (hash (textBase t)) "" || isModified (textBase t))%bool.
Qed.

(** No sequence of calls on a text object changes its path, its encoding or
    its size member: [getSize] of an object built by the [TextFile]
    constructor is zero for ever, whatever its file holds. *)
Theorem text_object_size_stays_zero
    (calls : list TextCall) (p : string) (fs : FileSystem) :
  getSize (AsText (text_run calls (TextFile_new p, fs)).1) = 0%Z /\
  getPath (AsText (text_run calls (TextFile_new p, fs)).1) = p /\
  encoding (text_run calls (TextFile_new p, fs)).1 = "UTF-8".
Proof.
  unfold getSize, getPath. simpl.
  assert (forall w,
            filepath (textBase (text_run calls w).1) = filepath (textBase w.1) /\
            fileSize (textBase (text_run calls w).1) = fileSize (textBase w.1) /\
            encoding (text_run calls w).1 = encoding w.1) as H.
  { induction calls as [|c calls IH]; intros w; [done|].
    unfold text_run in *. simpl. destruct (IH (text_call w c)) as (-> & -> & ->).
    by destruct (text_call_keeps w c) as (-> & -> & -> & _). }
  by destruct (H (TextFile_new p, fs)) as (-> & -> & ->).
Qed.

(** ** The binary heuristic *)

(** [detectBinary] looks at the first 512 bytes only: of a file that starts
    with 512 bytes it reports whether a NUL is among these, whatever follows
    them; a shorter file is binary exactly when it holds a NUL; a file that
    cannot be opened counts as text, and [createFileObject] then builds a
    text object on the missing path. *)
Theorem detectBinary_first_512 (fs : FileSystem) (p : string) :
  (forall pre post,
     files fs !! p = Some (pre ++ post) -> length pre = 512%nat ->
     (FileFactory_detectBinary fs p = true <-> zero ∈ pre)) /\
  (forall bytes,
     files fs !! p = Some bytes -> (length bytes <= 512)%nat ->
     (FileFactory_detectBinary fs p = true <-> zero ∈ bytes)) /\
  (files fs !! p = None ->
   FileFactory_detectBinary fs p = false /\
   FileFactory_createFileObject fs p = AsText (TextFile_new p)).
Proof.
  assert (forall l : list ascii,
            existsb (fun c => Ascii.eqb c zero) l = true <-> zero ∈ l) as Hex.
  { intros l. rewrite existsb_exists. split.
    - intros (c & Hin & Hc). apply Ascii.eqb_eq in Hc as ->. by apply list_elem_of_In.
    - intros Hin. exists zero. split; [by apply list_elem_of_In|apply Ascii.eqb_refl]. }
  unfold FileFactory_createFileObject, FileFactory_detectBinary, ifstream_read.
  split; [|split].
  - intros pre post -> Hlen. rewrite <- Hex. rewrite <- Hlen.
    by rewrite firstn_app, Nat.sub_diag, firstn_all, firstn_0, app_nil_r.
  - intros bytes -> Hlen. rewrite <- Hex. by rewrite firstn_all2.
  - by intros ->.
Qed.

(** ** Writing, then reading *)

(** [writeContent] fails exactly on a path the stream cannot open, with the
    object and every file unchanged; otherwise it replaces the file of the
    object and leaves every other file alone, and a [readContent] that
    follows returns the written bytes for a binary object and the written
    bytes with the last line terminated for a text object, which then holds
    the lines of the written bytes. *)
Theorem writeContent_then_readContent
    (obj : FileObject) (fs : FileSystem) (bytes : list ascii) :
  (getPath obj ∈ unwritable fs ->
   writeContent obj fs bytes
   = (obj, fs, Throw ("Cannot write to file: " +:+ getPath obj))) /\
  (getPath obj ∉ unwritable fs ->
   (writeContent obj fs bytes).2 = Ok tt /\
   files (writeContent obj fs bytes).1.2 = <[getPath obj := bytes]> (files fs) /\
   (readContent (writeContent obj fs bytes).1.1 (writeContent obj fs bytes).1.2).2
   = Ok (content_of obj bytes) /\
   held_content
     (readContent (writeContent obj fs bytes).1.1 (writeContent obj fs bytes).1.2).1
   = match obj with
     | AsText _ => inl (getlines "" false bytes)
     | AsBinary _ => inr bytes
     end).
Proof.
  split.
  - intros H. destruct obj as [t|b]; simpl;
      unfold TextFile_writeContent, BinaryFile_writeContent, ofstream_write, getPath in *;
      simpl in *; by destruct (decide (_ ∈ unwritable fs)).
  - intros H. destruct (writeContent_writable obj fs bytes H) as [obj' Hw].
    rewrite Hw. simpl. split; [done|]. split; [done|].
    pose proof (writeContent_Ok _ _ _ _ _ Hw) as [_ Hp].
    assert (isBinary obj' = isBinary obj) as Hk.
    { destruct obj as [t|b]; simpl in Hw;
        unfold TextFile_writeContent, BinaryFile_writeContent in Hw;
        destruct (ofstream_write fs _ bytes); by simplify_eq. }
    split.
    + rewrite (readContent_bytes obj' _ bytes).
      * by rewrite (content_of_kind obj' obj).
      * simpl. rewrite Hp. apply lookup_insert_eq.
    + destruct obj as [t|b], obj' as [t'|b']; try discriminate Hk; simpl;
        unfold TextFile_readContent, BinaryFile_readContent, ifstream_read;
        unfold getPath in Hp; simpl in *; rewrite Hp, lookup_insert_eq; done.
Qed.

Lemma writeContent_then_readContent_witness :
  (writeContent (AsText (TextFile_new "b.txt")) disk
     (list_ascii_of_string ("new" +:+ LF +:+ "text"))).2 = Ok tt /\
  files (writeContent (AsText (TextFile_new "b.txt")) disk
           (list_ascii_of_string ("new" +:+ LF +:+ "text"))).1.2
  = <[getPath (AsText (TextFile_new "b.txt"))
      := list_ascii_of_string ("new" +:+ LF +:+ "text")]> (files disk) /\
  (readContent
     (writeContent (AsText (TextFile_new "b.txt")) disk
        (list_ascii_of_string ("new" +:+ LF +:+ "text"))).1.1
     (writeContent (AsText (TextFile_new "b.txt")) disk
        (list_ascii_of_string ("new" +:+ LF +:+ "text"))).1.2).2
  = Ok (content_of (AsText (TextFile_new "b.txt"))
          (list_ascii_of_string ("new" +:+ LF +:+ "text"))) /\
  held_content
    (readContent
       (writeContent (AsText (TextFile_new "b.txt")) disk
          (list_ascii_of_string ("new" +:+ LF +:+ "text"))).1.1
       (writeContent (AsText (TextFile_new "b.txt")) disk
          (list_ascii_of_string ("new" +:+ LF +:+ "text"))).1.2).1
  = inl (getlines "" false (list_ascii_of_string ("new" +:+ LF +:+ "text"))).
Proof.
  apply (proj2 (writeContent_then_readContent (AsText (TextFile_new "b.txt")) disk
                  (list_ascii_of_string ("new" +:+ LF +:+ "text")))).
  simpl. apply not_elem_of_empty.
Defined.

(** ** The sharded path of a hash *)

Lemma substring_whole (s : string) : substring 0 (String.length s) s = s.
Proof. induction s as [|c s IH]; simpl; [reflexivity|]. by rewrite IH. Qed.

Lemma prefix_append (s t : string) : String.prefix s (s +:+ t) = true.
Proof.
  induction s as [|c s IH]; [by destruct t|].
  rewrite append_String. simpl. destruct (ascii_dec c c); [done|congruence].
Qed.

Lemma getObjectPath_Ok (st : ObjectStore) (h p : string) :
  ObjectStore_getObjectPath st h = Ok p ->
  exists a b rest,
    h = String a (String b rest) /\
    p = storePath st +:+ "/" +:+ String a (String b "") +:+ "/" +:+ rest.
Proof.
  unfold ObjectStore_getObjectPath.
  destruct h as [|a [|b rest]]; [discriminate..|].
  cbn [String.length Nat.ltb Nat.leb]. intros [= <-].
  exists a, b, rest. split; [done|].
  cbn [substring Nat.sub]. rewrite Nat.sub_0_r, substring_whole.
  by destruct rest.
Qed.

Lemma split_path_separator (name rest : string) :
  split_path name (String separator rest)
  = (if String.eqb name "" then [] else [name]) ++ split_path "" rest.
Proof. reflexivity. Qed.






(** ** Retrieval of what is not there, and the read-through cache *)

Lemma hasObject_found (st : ObjectStore) (fs : FileSystem) (h : string) :
  ObjectStore_hasObject st fs h = Ok true <-> is_Some (found_bytes st fs h).
Proof.
  unfold ObjectStore_hasObject, StoragePool_contains, found_bytes, fs_exists.
  destruct (pool (objectPool st) !! h) as [c|].
  - rewrite bool_decide_eq_true_2 by eauto. split; eauto.
  - rewrite bool_decide_eq_false_2 by (intros [? ?]; done).
    destruct (ObjectStore_getObjectPath st h) as [objPath|e].
    + destruct (files fs !! objPath) as [c|].
      * rewrite bool_decide_eq_true_2 by eauto. split; eauto.
      * rewrite bool_decide_eq_false_2 by (intros [? ?]; done).
        split; [discriminate|intros [? ?]; done].
    + split; [discriminate|intros [? ?]; done].
Qed.

(** A blob found on disk only is copied into the cache before the object is
    rebuilt, even when rebuilding throws: afterwards the cache holds its
    bytes under the hash, the origin paths are as before, and the hash is
    found whatever happens to the files. *)
Theorem retrieveObject_backfills_cache
    (st : ObjectStore) (fs : FileSystem) (h objPath : string) (content : list ascii) :
  pool (objectPool st) !! h = None ->
  ObjectStore_getObjectPath st h = Ok objPath ->
  files fs !! objPath = Some content ->
  pool (objectPool (ObjectStore_retrieveObject st fs h).1.1) !! h = Some content /\
  hashToPath (ObjectStore_retrieveObject st fs h).1.1 = hashToPath st /\
  forall fs', found_bytes (ObjectStore_retrieveObject st fs h).1.1 fs' h = Some content.
Proof.
  intros Hpool Hpath Hblob.
  unfold ObjectStore_retrieveObject, StoragePool_retrieve, fs_exists, ifstream_read.
  rewrite Hpool, Hpath, Hblob. rewrite bool_decide_eq_true_2 by eauto. simpl.
  rewrite rebuild_store. simpl. rewrite lookup_insert_eq.
  split; [done|]. split; [done|]. intros fs'. unfold found_bytes. simpl.
  by rewrite lookup_insert_eq.
Qed.

Lemma retrieveObject_backfills_cache_witness :
  pool (objectPool
          (ObjectStore_retrieveObject (ObjectStore_new "objects") diskWithBlob sha_foo_bar).1.1)
    !! sha_foo_bar
  = Some (list_ascii_of_string ("foo" +:+ LF +:+ "bar" +:+ LF)) /\
  hashToPath
    (ObjectStore_retrieveObject (ObjectStore_new "objects") diskWithBlob sha_foo_bar).1.1
  = hashToPath (ObjectStore_new "objects") /\
  forall fs',
    found_bytes
      (ObjectStore_retrieveObject (ObjectStore_new "objects") diskWithBlob sha_foo_bar).1.1
      fs' sha_foo_bar
    = Some (list_ascii_of_string ("foo" +:+ LF +:+ "bar" +:+ LF)).
Proof.
  apply (retrieveObject_backfills_cache (ObjectStore_new "objects") diskWithBlob sha_foo_bar
           "objects/d7/8931fcf2660108eec0d6674ecb4e02401b5256a6b5ee82527766ef6d198c67").
  - reflexivity.
  - vm_compute. reflexivity.
  - vm_compute. reflexivity.
Defined.

(** ** Stores that fail *)

(** A store of a new hash whose file cannot be opened throws the exception
    of [readContent] and changes neither the store nor any file. *)
Theorem storeObject_unreadable (st : ObjectStore) (fs : FileSystem) (obj : FileObject) :
  ObjectStore_hasObject st fs (getHash obj).1 = Ok false ->
  files fs !! getPath obj = None ->
  ObjectStore_storeObject st fs obj
  = (st, fs, (getHash obj).2, Throw ("Cannot open file: " +:+ getPath obj)).
Proof.
  intros Hnew Hmissing. unfold ObjectStore_storeObject.
  pose proof (getHash_path obj) as Hp.
  destruct (getHash obj) as [h obj1]. simpl in Hnew, Hp. rewrite Hnew.
  rewrite <- Hp in Hmissing. cbn [snd]. rewrite <- Hp.
  destruct obj1 as [t|b]; unfold getPath in *; simpl in *;
    unfold TextFile_readContent, BinaryFile_readContent, ifstream_read;
    rewrite Hmissing; done.
Qed.

Lemma storeObject_unreadable_witness :
  ObjectStore_storeObject (ObjectStore_new "objects") disk (AsText (TextFile_new "none.txt"))
  = (ObjectStore_new "objects", disk, (getHash (AsText (TextFile_new "none.txt"))).2,
     Throw ("Cannot open file: " +:+ getPath (AsText (TextFile_new "none.txt")))).
Proof.
  apply (storeObject_unreadable (ObjectStore_new "objects") disk
           (AsText (TextFile_new "none.txt"))).
  - vm_compute. reflexivity.
  - vm_compute. reflexivity.
Defined.




(** ** The files a call can change *)

Lemma store_and_retrieve_frame_paths (st : ObjectStore) (fs : FileSystem) :
  (forall obj q,
     ObjectStore_getObjectPath st (getHash obj).1 <> Ok q ->
     files (ObjectStore_storeObject st fs obj).1.1.2 !! q = files fs !! q) /\
  (forall obj, unwritable (ObjectStore_storeObject st fs obj).1.1.2 = unwritable fs) /\
  (forall h q,
     q <> origin_path st h ->
     files (ObjectStore_retrieveObject st fs h).1.2 !! q = files fs !! q) /\
  (forall h, unwritable (ObjectStore_retrieveObject st fs h).1.2 = unwritable fs).
Proof.
  assert (forall s h content q,
            hashToPath s = hashToPath st ->
            (q <> origin_path st h ->
             files (ObjectStore_rebuild s fs h content).1.2 !! q = files fs !! q) /\
            unwritable (ObjectStore_rebuild s fs h content).1.2 = unwritable fs) as Hre.
  { intros s h content q Hs. unfold ObjectStore_rebuild, origin_path. rewrite Hs.
    set (p := match hashToPath st !! h with Some p => p | None => "temp" end).
    destruct (writeContent (FileFactory_createFileObject fs p) fs content)
      as [[obj' fs'] [[]|e]] eqn:Hw; simpl.
    - apply writeContent_Ok in Hw as [Hw _]. rewrite createFileObject_path in Hw.
      apply ofstream_write_files in Hw as (-> & -> & _).
      split; [|done]. intros Hq. by rewrite lookup_insert_ne.
    - assert (fs' = fs) as ->; [|done].
      destruct (FileFactory_createFileObject fs p) as [t|b]; simpl in Hw;
        unfold TextFile_writeContent, BinaryFile_writeContent in Hw;
        destruct (ofstream_write fs _ content); by simplify_eq. }
  split; [|split; [|split]].
  - intros obj q Hq. unfold ObjectStore_storeObject.
    destruct (getHash obj) as [h obj1]. simpl in Hq.
    destruct (ObjectStore_hasObject st fs h) as [[|]|e]; simpl; [done| |done].
    destruct (readContent obj1 fs) as [obj2 [content|e]]; simpl; [|done].
    destruct (ObjectStore_getObjectPath st h) as [objPath|e]; simpl; [|done].
    destruct (ofstream_write fs objPath content) as [fs1|] eqn:Hw; simpl; [|done].
    apply ofstream_write_files in Hw as (-> & _ & _).
    rewrite lookup_insert_ne; [done|]. congruence.
  - intros obj. unfold ObjectStore_storeObject.
    destruct (getHash obj) as [h obj1].
    destruct (ObjectStore_hasObject st fs h) as [[|]|e]; simpl; [done| |done].
    destruct (readContent obj1 fs) as [obj2 [content|e]]; simpl; [|done].
    destruct (ObjectStore_getObjectPath st h) as [objPath|e]; simpl; [|done].
    destruct (ofstream_write fs objPath content) as [fs1|] eqn:Hw; simpl; [|done].
    by apply ofstream_write_files in Hw as (_ & -> & _).
  - intros h q Hq. unfold ObjectStore_retrieveObject, StoragePool_retrieve.
    destruct (pool (objectPool st) !! h) as [c|]; [by apply Hre|].
    destruct (ObjectStore_getObjectPath st h) as [objPath|e]; simpl; [|done].
    destruct (fs_exists fs objPath); simpl; [|done].
    destruct (ifstream_read fs objPath) as [c|]; simpl; [|done]. by apply Hre.
  - intros h. unfold ObjectStore_retrieveObject, StoragePool_retrieve.
    destruct (pool (objectPool st) !! h) as [c|]; [by apply (Hre st h c "")|].
    destruct (ObjectStore_getObjectPath st h) as [objPath|e]; simpl; [|done].
    destruct (fs_exists fs objPath); simpl; [|done].
    destruct (ifstream_read fs objPath) as [c|]; simpl; [|done]. by apply (Hre _ h c "").
Qed.

(** [storeObject] writes at most one file, the blob of the digest it
    computed, and [retrieveObject] writes at most the file at the origin
    path recorded for the hash ([temp] when none is recorded): every other
    file is as before, however the call ends.  The paths are plain, so that
    two of them name one file only when they are equal. *)
Theorem store_and_retrieve_frame (st : ObjectStore) (fs : FileSystem) :
  plain (storePath st) = true ->
  plain_files fs = true ->
  (forall obj q,
     is_digest (getHash obj).1 -> plain q = true ->
     ObjectStore_getObjectPath st (getHash obj).1 <> Ok q ->
     files (ObjectStore_storeObject st fs obj).1.1.2 !! q = files fs !! q) /\
  (forall h q,
     plain (origin_path st h) = true -> plain q = true ->
     q <> origin_path st h ->
     files (ObjectStore_retrieveObject st fs h).1.2 !! q = files fs !! q).
Proof.
  intros _ _. destruct (store_and_retrieve_frame_paths st fs) as (Hstore & _ & Hretrieve & _).
  split.
  - intros obj q _ _. apply Hstore.
  - intros h q _ _. apply Hretrieve.
Qed.

Lemma store_and_retrieve_frame_witness :
  files (ObjectStore_storeObject (ObjectStore_new "objects") disk readFirst).1.1.2 !! "a.txt"
  = files disk !! "a.txt" /\
  files (ObjectStore_retrieveObject (ObjectStore_new "objects") disk sha_foo_bar).1.2 !! "a.txt"
  = files disk !! "a.txt".
Proof.
  destruct (store_and_retrieve_frame (ObjectStore_new "objects") disk)
    as [Hstore Hretrieve].
  - reflexivity.
  - vm_compute. reflexivity.
  - split.
    + apply Hstore.
      * split; vm_compute; reflexivity.
      * reflexivity.
      * vm_compute. discriminate.
    + apply Hretrieve.
      * reflexivity.
      * reflexivity.
      * vm_compute. discriminate.
Defined.

(** ** The storage size *)

Lemma storage_sum_permutation (root : string) (l l' : list (string * list ascii)) :
  l ≡ₚ l' ->
  foldr (fun entry totalSize =>
           if below root entry.1 then (length entry.2 + totalSize)%nat else totalSize)
        0%nat l
  = foldr (fun entry totalSize =>
             if below root entry.1 then (length entry.2 + totalSize)%nat else totalSize)
          0%nat l'.
Proof.
  induction 1 as [|x l l' _ IH|x y l|l l' l'' _ IH1 _ IH2]; simpl.
  - done.
  - by rewrite IH.
  - destruct (below root x.1), (below root y.1); lia.
  - by rewrite IH1.
Qed.

Lemma getStorageSize_insert_new st fs p bytes :
  files fs !! p = None ->
  ObjectStore_getStorageSize st (mkFileSystem (<[p := bytes]> (files fs)) (unwritable fs))
  = ((if below (storePath st) p then length bytes else 0)
     + ObjectStore_getStorageSize st fs)%nat.
Proof.
  intros Hnew. unfold ObjectStore_getStorageSize. simpl.
  rewrite (storage_sum_permutation _ _ _ (map_to_list_insert (files fs) p bytes Hnew)).
  simpl. by destruct (below (storePath st) p).
Qed.

Lemma getStorageSize_insert_outside st fs p bytes :
  below (storePath st) p = false ->
  ObjectStore_getStorageSize st (mkFileSystem (<[p := bytes]> (files fs)) (unwritable fs))
  = ObjectStore_getStorageSize st fs.
Proof.
  intros Hout. destruct (files fs !! p) as [old|] eqn:Hp.
  - rewrite <- (insert_delete_eq (files fs)).
    pose proof (getStorageSize_insert_new st
                  (mkFileSystem (delete p (files fs)) (unwritable fs)) p bytes) as H1.
    pose proof (getStorageSize_insert_new st
                  (mkFileSystem (delete p (files fs)) (unwritable fs)) p old) as H2.
    simpl in H1, H2. rewrite H1, Hout by apply lookup_delete_eq.
    rewrite Hout in H2. rewrite insert_delete_eq, insert_id in H2 by done.
    rewrite <- H2 by apply lookup_delete_eq. by destruct fs.
  - rewrite getStorageSize_insert_new by done. by rewrite Hout.
Qed.

Lemma rebuild_files s fs h content :
  (ObjectStore_rebuild s fs h content).1.2 = fs \/
  (ObjectStore_rebuild s fs h content).1.2
  = mkFileSystem (<[origin_path s h := content]> (files fs)) (unwritable fs).
Proof.
  unfold ObjectStore_rebuild, origin_path.
  set (p := match hashToPath s !! h with Some p => p | None => "temp" end).
  destruct (writeContent (FileFactory_createFileObject fs p) fs content)
    as [[obj' fs'] [[]|e]] eqn:Hw; simpl.
  - right. apply writeContent_Ok in Hw as [Hw _]. rewrite createFileObject_path in Hw.
    unfold ofstream_write in Hw. destruct (decide (p ∈ unwritable fs)); by simplify_eq.
  - left. destruct (FileFactory_createFileObject fs p) as [t|b]; simpl in Hw;
      unfold TextFile_writeContent, BinaryFile_writeContent in Hw;
      destruct (ofstream_write fs _ content); by simplify_eq.
Qed.

Lemma storage_size_paths (st : ObjectStore) (fs : FileSystem) :
  (forall obj h bytes,
     (ObjectStore_storeObject st fs obj).2 = Ok h ->
     ObjectStore_hasObject st fs h = Ok false ->
     files fs !! getPath obj = Some bytes ->
     ObjectStore_getStorageSize (ObjectStore_storeObject st fs obj).1.1.1
                                (ObjectStore_storeObject st fs obj).1.1.2
     = (ObjectStore_getStorageSize st fs + length (content_of obj bytes))%nat) /\
  (forall h,
     below (storePath st) (origin_path st h) = false ->
     ObjectStore_getStorageSize (ObjectStore_retrieveObject st fs h).1.1
                                (ObjectStore_retrieveObject st fs h).1.2
     = ObjectStore_getStorageSize st fs).
Proof.
  split.
  - intros obj h bytes Hret Hnew Hbytes.
    destruct (ObjectStore_storeObject st fs obj) as [[[st1 fs1] obj1] r] eqn:Hs.
    simpl in Hret. subst r. simpl.
    destruct (storeObject_stored _ _ _ _ _ _ _ Hs Hnew)
      as (bytes' & objPath & Hh & Hb & Ho & Hwr & Hst1 & _).
    assert (bytes' = bytes) as -> by congruence.
    assert (files fs !! objPath = None) as Habsent.
    { unfold ObjectStore_hasObject in Hnew.
      destruct (StoragePool_contains (objectPool st) h); [discriminate|].
      rewrite Ho in Hnew. injection Hnew as Hnew. unfold fs_exists in Hnew.
      apply bool_decide_eq_false_1 in Hnew.
      destruct (files fs !! objPath) eqn:E; [|done]. destruct Hnew. eauto. }
    assert (below (storePath st) objPath = true) as Hbelow.
    { destruct (getObjectPath_Ok _ _ _ Ho) as (a & b & rest & _ & ->).
      unfold below. rewrite <- append_assoc. apply prefix_append. }
    unfold ofstream_write in Hwr.
    destruct (decide (objPath ∈ unwritable fs)); [discriminate|]. injection Hwr as <-.
    rewrite Hst1. unfold ObjectStore_getStorageSize at 1. simpl storePath.
    fold (ObjectStore_getStorageSize st
            (mkFileSystem (<[objPath:=content_of obj bytes]> (files fs)) (unwritable fs))).
    rewrite getStorageSize_insert_new by done. rewrite Hbelow. lia.
  - intros h Hout.
    assert (forall s content,
              storePath s = storePath st -> hashToPath s = hashToPath st ->
              ObjectStore_getStorageSize (ObjectStore_rebuild s fs h content).1.1
                                         (ObjectStore_rebuild s fs h content).1.2
              = ObjectStore_getStorageSize st fs) as Hre.
    { intros s content Hroot Horigin. rewrite rebuild_store.
      assert (origin_path s h = origin_path st h) as Ho
        by (unfold origin_path; by rewrite Horigin).
      unfold ObjectStore_getStorageSize at 1. rewrite Hroot.
      fold (ObjectStore_getStorageSize st (ObjectStore_rebuild s fs h content).1.2).
      destruct (rebuild_files s fs h content) as [-> | ->]; [done|].
      rewrite Ho. by apply getStorageSize_insert_outside. }
    unfold ObjectStore_retrieveObject, StoragePool_retrieve.
    destruct (pool (objectPool st) !! h) as [c|]; [by apply Hre|].
    destruct (ObjectStore_getObjectPath st h) as [objPath|e]; simpl; [|done].
    destruct (fs_exists fs objPath); simpl; [|done].
    destruct (ifstream_read fs objPath) as [c|]; simpl; [|done]. by apply Hre.
Qed.

(** [getStorageSize] counts the bytes of the files inside the store root: a
    [storeObject] that returns a digest that was absent adds exactly the
    length of the stored content, and a [retrieveObject] whose origin path
    lies outside the store root leaves the size as it was.  The paths are
    plain, so that the files inside the root are those whose path starts
    with the root and a separator. *)
Theorem storage_size_accounting (st : ObjectStore) (fs : FileSystem) :
  plain (storePath st) = true ->
  plain_files fs = true ->
  (forall obj h bytes,
     is_digest h ->
     (ObjectStore_storeObject st fs obj).2 = Ok h ->
     ObjectStore_hasObject st fs h = Ok false ->
     files fs !! getPath obj = Some bytes ->
     ObjectStore_getStorageSize (ObjectStore_storeObject st fs obj).1.1.1
                                (ObjectStore_storeObject st fs obj).1.1.2
     = (ObjectStore_getStorageSize st fs + length (content_of obj bytes))%nat) /\
  (forall h,
     plain (origin_path st h) = true ->
     below (storePath st) (origin_path st h) = false ->
     ObjectStore_getStorageSize (ObjectStore_retrieveObject st fs h).1.1
                                (ObjectStore_retrieveObject st fs h).1.2
     = ObjectStore_getStorageSize st fs).
Proof.
  intros _ _. destruct (storage_size_paths st fs) as [Hstore Hretrieve]. split.
  - intros obj h bytes _. apply Hstore.
  - intros h _. apply Hretrieve.
Qed.

Lemma storage_size_accounting_witness :
  ObjectStore_getStorageSize
    (ObjectStore_storeObject (ObjectStore_new "objects") disk readFirst).1.1.1
    (ObjectStore_storeObject (ObjectStore_new "objects") disk readFirst).1.1.2
  = (ObjectStore_getStorageSize (ObjectStore_new "objects") disk
     + length (content_of readFirst (list_ascii_of_string ("foo" +:+ LF +:+ "bar" +:+ LF))))%nat.
Proof.
  destruct (storage_size_accounting (ObjectStore_new "objects") disk) as [Hstore _].
  - reflexivity.
  - vm_compute. reflexivity.
  - apply (Hstore readFirst sha_foo_bar).
    + split; vm_compute; reflexivity.
    + vm_compute. reflexivity.
    + vm_compute. reflexivity.
    + vm_compute. reflexivity.
Defined.

(** ** Cleanup *)





(** [cleanup] leaves the cache as it is: a hash the cache holds is still
    reported present after any cleanup, also when its blob was removed, and
    [retrieveObject] still rebuilds the object from the cached bytes. *)
Theorem cleanup_leaves_cache_stale
    (st : ObjectStore) (fs : FileSystem) (hours : string -> Z) (daysOld : Z)
    (h : string) (content : list ascii) :
  pool (objectPool st) !! h = Some content ->
  origin_path st h ∉ unwritable fs ->
  ObjectStore_hasObject st (ObjectStore_cleanup st fs hours daysOld) h = Ok true /\
  exists st' obj,
    ObjectStore_retrieveObject st (ObjectStore_cleanup st fs hours daysOld) h
    = (st',
       mkFileSystem
         (<[origin_path st h := content]>
            (files (ObjectStore_cleanup st fs hours daysOld)))
         (unwritable fs),
       Ok (Some obj)).
Proof.
  intros Hheld Hw.
  assert (found_bytes st (ObjectStore_cleanup st fs hours daysOld) h = Some content)
    as Hfound by (unfold found_bytes; by rewrite Hheld).
  split; [apply hasObject_found; eauto|].
  by apply (retrieveObject_found st (ObjectStore_cleanup st fs hours daysOld) h content).
Qed.

Lemma cleanup_leaves_cache_stale_witness :
  let st := (ObjectStore_storeObject (ObjectStore_new "objects") disk readFirst).1.1.1 in
  files (ObjectStore_cleanup st diskWithBlob thirtyHours 0)
    !! "objects/d7/8931fcf2660108eec0d6674ecb4e02401b5256a6b5ee82527766ef6d198c67" = None /\
  ObjectStore_hasObject st (ObjectStore_cleanup st diskWithBlob thirtyHours 0) sha_foo_bar
  = Ok true /\
  exists st' obj,
    ObjectStore_retrieveObject st (ObjectStore_cleanup st diskWithBlob thirtyHours 0)
      sha_foo_bar
    = (st',
       mkFileSystem
         (<[origin_path st sha_foo_bar := list_ascii_of_string ("foo" +:+ LF +:+ "bar" +:+ LF)]>
            (files (ObjectStore_cleanup st diskWithBlob thirtyHours 0)))
         (unwritable diskWithBlob),
       Ok (Some obj)).
Proof.
  split; [vm_compute; reflexivity|].
  apply (cleanup_leaves_cache_stale
           (ObjectStore_storeObject (ObjectStore_new "objects") disk readFirst).1.1.1
           diskWithBlob thirtyHours 0 sha_foo_bar).
  - vm_compute. reflexivity.
  - vm_compute. discriminate.
Defined.

(** ** Which entry a full cache gives up *)

Lemma ltb_not_leb (a b : string) : String.ltb a b = negb (String.leb b a).
Proof.
  unfold String.ltb, String.leb. rewrite (String.compare_antisym b a).
  by destruct (String.compare a b).
Qed.

Lemma leb_trans (a b c : string) :
  String.leb a b = true -> String.leb b c = true -> String.leb a c = true.
Proof.
  intros H1 H2. apply Is_true_true. apply Is_true_true in H1, H2.
  change (String.le a c). by transitivity b.
Qed.

Lemma leb_refl (a : string) : String.leb a a = true.
Proof. apply Is_true_true. change (String.le a a). done. Qed.

Lemma least_key_least (keys : list string) (k : string) :
  least_key keys = Some k -> forall k', k' ∈ keys -> String.leb k k' = true.
Proof.
  revert k. induction keys as [|k0 keys IH]; intros k; simpl; [discriminate|].
  destruct (least_key keys) as [m|] eqn:E.
  - rewrite ltb_not_leb. destruct (String.leb m k0) eqn:Hm; simpl.
    + intros [= <-] k' [->|Hin]%elem_of_cons; [done|by apply IH].
    + intros [= <-] k' [->|Hin]%elem_of_cons; [apply leb_refl|].
      destruct (String.leb_total k0 m) as [H|H]; [|congruence].
      apply (leb_trans _ m); [done|by apply IH].
  - apply least_key_None in E as ->. intros [= <-] k' Hin.
    apply list_elem_of_singleton in Hin as ->. apply leb_refl.
Qed.

Lemma pool_begin_least {T : Type} (m : gmap string T) (k : string) :
  pool_begin m = Some k -> forall k', is_Some (m !! k') -> String.leb k k' = true.
Proof.
  intros H k' Hk'. apply (least_key_least _ _ H).
  apply elem_of_elements. by apply elem_of_dom.
Qed.



(** ** Visiting the recorded origins *)

Lemma entries_ascending_spec (fuel : nat) (m : gmap string string) :
  (size m <= fuel)%nat ->
  entries_ascending fuel m ≡ₚ map_to_list m /\
  ascending (entries_ascending fuel m).*1.
Proof.
  revert m. induction fuel as [|fuel IH]; intros m Hsize.
  - assert (m = ∅) as -> by (apply map_size_empty_iff; lia).
    by rewrite map_to_list_empty.
  - simpl. destruct (pool_begin m) as [k|] eqn:Hb.
    + destruct (pool_begin_held _ _ Hb) as [v Hv]. rewrite Hv.
      destruct (IH (delete k m)) as [Hperm Hasc].
      { rewrite map_size_delete_Some by eauto. lia. }
      split.
      * rewrite Hperm. by apply map_to_list_delete.
      * simpl. split; [|done]. apply Forall_forall. intros k' Hk'.
        apply list_elem_of_fmap in Hk' as ([k'' v'] & -> & Hin). simpl.
        rewrite Hperm in Hin. apply elem_of_map_to_list in Hin.
        apply lookup_delete_Some in Hin as [Hne Hin].
        rewrite ltb_not_leb. apply negb_true_iff.
        destruct (String.leb k'' k) eqn:Hle; [|done].
        destruct Hne. apply String.leb_antisym; [|done].
        apply (pool_begin_least _ _ Hb). eauto.
    + apply pool_begin_None in Hb as ->. by rewrite map_to_list_empty.
Qed.

(** [forEach] calls its function once for every recorded pair of hash and
    origin path and for nothing else, in strictly increasing order of the
    hashes. *)
Theorem forEach_visits_ascending (st : ObjectStore) :
  ObjectStore_forEach st (fun visited h p => visited ++ [(h, p)]) []
  ≡ₚ map_to_list (hashToPath st) /\
  ascending (ObjectStore_forEach st (fun visited h p => visited ++ [(h, p)]) []).*1.
Proof.
  assert (forall (l : list (string * string)) acc,
            fold_left (fun s' entry => s' ++ [(entry.1, entry.2)]) l acc = acc ++ l) as Hfold.
  { induction l as [|[k v] l IH]; intros acc; simpl; [by rewrite app_nil_r|].
    rewrite IH. by rewrite <- app_assoc. }
  unfold ObjectStore_forEach. rewrite Hfold. simpl.
  by apply entries_ascending_spec.
Qed.

(** ** Similarity one *)

Lemma Edits_zero (a b : list ascii) : Edits a b 0 -> a = b.
Proof. by inversion 1. Qed.

Lemma lev_zero (a b : list ascii) : lev a b = 0%nat <-> a = b.
Proof.
  split; [|intros ->; apply lev_refl].
  intros H. apply Edits_zero. rewrite <- H. apply EditScript_edits, lev_script.
Qed.

Lemma list_ascii_of_string_inj (a b : string) :
  list_ascii_of_string a = list_ascii_of_string b -> a = b.
Proof.
  intros H. rewrite <- (string_of_list_ascii_of_string a), H.
  apply string_of_list_ascii_of_string.
Qed.

(** On texts whose lengths fit an [int], [calculateSimilarity] returns
    [1.0] exactly when the two texts are equal: the two roundings never
    take the result of two different texts up to one. *)
Theorem calculateSimilarity_one_iff_equal (text1 text2 : string) :
  (Z.of_nat (String.length text1) < INT_MAX)%Z ->
  (Z.of_nat (String.length text2) < INT_MAX)%Z ->
  DiffEngine_calculateSimilarity text1 text2 = double_one <-> text1 = text2.
Proof.
  intros Hlen1 Hlen2. split; [|intros <-; by apply calculateSimilarity_same].
  destruct (decide (text1 = "")) as [->|H1].
  { destruct text2; [done|]. intros H. vm_compute in H. discriminate H. }
  destruct (decide (text2 = "")) as [->|H2].
  { destruct text1; [done|]. intros H. vm_compute in H. discriminate H. }
  rewrite calculateSimilarity_nonempty by done. intros Hone.
  destruct (ratio_in_range text1 text2 Hlen1 Hlen2 H1) as [Hd HM].
  destruct (Binary64.ratio_result _ _ Hd HM) as (_ & Hpos & _).
  apply list_ascii_of_string_inj, lev_zero.
  destruct (lev (list_ascii_of_string text1) (list_ascii_of_string text2)); [done|].
  exfalso. apply Hpos; [lia|exact Hone].
Qed.

Lemma calculateSimilarity_one_iff_equal_witness :
  DiffEngine_calculateSimilarity "abc" "abd" = double_one <-> "abc" = "abd".
Proof.
  apply (calculateSimilarity_one_iff_equal "abc" "abd").
  - vm_compute. reflexivity.
  - vm_compute. reflexivity.
Defined.

(** ** Similar files *)




(** ** Comparing twice *)

Lemma computeHash_nonempty (obj : FileObject) : computeHash obj <> "".
Proof.
  destruct (computeHash_digest obj) as [Hlen _]. intros H. by rewrite H in Hlen.
Qed.

Lemma getHash_clean (obj : FileObject) :
  hash (base obj) <> "" -> isModified (base obj) = false ->
  getHash obj = (hash (base obj), obj).
Proof.
  intros Hfull Hm. unfold getHash. apply String.eqb_neq in Hfull. by rewrite Hfull, Hm.
Qed.

Lemma getHash_idempotent (obj : FileObject) :
  getHash (getHash obj).2 = ((getHash obj).1, (getHash obj).2).
Proof.
  destruct (String.eqb (hash (base obj)) "" || isModified (base obj))%bool eqn:E.
  - assert (getHash obj
            = (computeHash obj,
               set_base obj (mkBase (filepath (base obj)) (computeHash obj)
                               (fileSize (base obj)) false))) as ->
      by (unfold getHash; by rewrite E).
    cbn [fst snd]. pose proof (computeHash_nonempty obj) as Hne.
    destruct obj; rewrite getHash_clean; done.
  - apply orb_false_iff in E as [Hfull Hm]. apply String.eqb_neq in Hfull.
    rewrite (getHash_clean obj Hfull Hm). cbn [fst snd]. by apply getHash_clean.
Qed.

(** [compareFiles] on two objects reports [UNCHANGED] exactly when
    [operator==] holds between them, and it leaves the objects settled:
    comparing the objects it returns gives the same [Change] again and
    changes them no further. *)
Theorem compareFiles_settles (oldFile newFile : option FileObject) :
  (forall o n, oldFile = Some o -> newFile = Some n ->
     (type (DiffEngine_compareFiles oldFile newFile).1.1 = UNCHANGED
      <-> FileObject_eq o n = true)) /\
  DiffEngine_compareFiles (DiffEngine_compareFiles oldFile newFile).1.2
                          (DiffEngine_compareFiles oldFile newFile).2
  = DiffEngine_compareFiles oldFile newFile.
Proof.
  split.
  - intros o n -> ->. unfold FileObject_eq. simpl.
    destruct (getHash o) as [oh o'], (getHash n) as [nh n']. simpl.
    destruct (String.eqb oh nh); simpl; split; congruence.
  - destruct oldFile as [o|], newFile as [n|]; simpl; [| | |done].
    + pose proof (getHash_idempotent o) as Ho. pose proof (getHash_idempotent n) as Hn.
      pose proof (getHash_path o) as Hpo.
      destruct (getHash o) as [oh o'], (getHash n) as [nh n']. simpl in *.
      destruct (String.eqb oh nh) eqn:E; simpl; rewrite Ho, Hn, E, Hpo; done.
    + pose proof (getHash_idempotent o) as Ho. pose proof (getHash_path o) as Hpo.
      destruct (getHash o) as [oh o']. simpl in *. by rewrite Ho, Hpo.
    + pose proof (getHash_idempotent n) as Hn. pose proof (getHash_path n) as Hpn.
      destruct (getHash n) as [nh n']. simpl in *. by rewrite Hn, Hpn.
Qed.

(** ** The line diff on sorted files *)

Lemma mark_eq (c c' : ascii) (l l' : string) :
  String c "" +:+ l = String c' "" +:+ l' <-> c = c' /\ l = l'.
Proof.
  change (String c "" +:+ l) with (String c l).
  change (String c' "" +:+ l') with (String c' l').
  split; [by injection 1|by intros [-> ->]].
Qed.

Lemma ltb_irrefl (a : string) : String.ltb a a = false.
Proof. rewrite ltb_not_leb. by rewrite leb_refl. Qed.

Lemma ltb_asym (a b : string) : String.ltb a b = true -> String.ltb b a = false.
Proof.
  unfold String.ltb. rewrite (String.compare_antisym b a).
  by destruct (String.compare a b).
Qed.

Lemma ltb_total (a b : string) :
  String.eqb a b = false -> String.ltb a b = false -> String.ltb b a = true.
Proof.
  intros Hne Hlt. apply String.eqb_neq in Hne.
  unfold String.ltb in *. rewrite (String.compare_antisym b a).
  destruct (String.compare a b) eqn:E; [|done|done].
  by apply String.compare_eq_iff in E.
Qed.

Lemma ascending_head_fresh (k : string) (rest : list string) :
  ascending (k :: rest) -> k ∉ rest.
Proof.
  intros [Hall _] Hin. rewrite Forall_forall in Hall.
  specialize (Hall _ Hin). by rewrite ltb_irrefl in Hall.
Qed.

Lemma below_ascending_fresh (a k : string) (rest : list string) :
  String.ltb a k = true -> ascending (k :: rest) -> a ∉ k :: rest.
Proof.
  intros Hlt [Hall _] Hin. rewrite Forall_forall in Hall.
  apply elem_of_cons in Hin as [->|Hin].
  - by rewrite ltb_irrefl in Hlt.
  - specialize (Hall _ Hin). apply ltb_asym in Hall. congruence.
Qed.

Lemma diffLoop_sorted (oldLines newLines : list string) :
  ascending oldLines -> ascending newLines ->
  forall l,
    ((" " +:+ l) ∈ diffLoop oldLines newLines <-> l ∈ oldLines /\ l ∈ newLines) /\
    (("-" +:+ l) ∈ diffLoop oldLines newLines <-> l ∈ oldLines /\ l ∉ newLines) /\
    (("+" +:+ l) ∈ diffLoop oldLines newLines <-> l ∈ newLines /\ l ∉ oldLines).
Proof.
  revert newLines. induction oldLines as [|o olds IHo]; intros newLines Ho Hn l.
  - induction newLines as [|n news IH]; [simpl; rewrite !elem_of_nil; intuition (subst; tauto || congruence)|].
    change (diffLoop [] (n :: news)) with (("+" +:+ n) :: diffLoop [] news).
    destruct (IH (proj2 Hn)) as (IH1 & IH2 & IH3).
    rewrite !elem_of_cons, !mark_eq, IH1, IH2, IH3, ?elem_of_nil. intuition (subst; tauto || congruence).
  - induction newLines as [|n news IHn].
    + change (diffLoop (o :: olds) []) with (("-" +:+ o) :: diffLoop olds []).
      destruct (IHo [] (proj2 Ho) I l) as (IH1 & IH2 & IH3).
      rewrite !elem_of_cons, !mark_eq, IH1, IH2, IH3, ?elem_of_nil. intuition (subst; tauto || congruence).
    + change (diffLoop (o :: olds) (n :: news))
        with (if String.eqb o n then (" " +:+ o) :: diffLoop olds news
              else if String.ltb o n then ("-" +:+ o) :: diffLoop olds (n :: news)
              else ("+" +:+ n) :: diffLoop (o :: olds) news).
      destruct (String.eqb_spec o n) as [<-|Hne].
      * destruct (IHo news (proj2 Ho) (proj2 Hn) l) as (IH1 & IH2 & IH3).
        pose proof (ascending_head_fresh _ _ Ho).
        pose proof (ascending_head_fresh _ _ Hn).
        rewrite !elem_of_cons, !mark_eq, IH1, IH2, IH3. intuition (subst; tauto || congruence).
      * destruct (String.ltb o n) eqn:Hlt.
        -- destruct (IHo (n :: news) (proj2 Ho) Hn l) as (IH1 & IH2 & IH3).
           pose proof (below_ascending_fresh _ _ _ Hlt Hn) as Hfresh.
           rewrite elem_of_cons in Hfresh.
           rewrite !elem_of_cons, !mark_eq, IH1, IH2, IH3, !elem_of_cons. intuition (subst; tauto || congruence).
        -- destruct (IHn (proj2 Hn)) as (IH1 & IH2 & IH3).
           apply String.eqb_neq in Hne.
           pose proof (below_ascending_fresh _ _ _ (ltb_total _ _ Hne Hlt) Ho) as Hfresh.
           rewrite elem_of_cons in Hfresh.
           rewrite !elem_of_cons, !mark_eq, IH1, IH2, IH3, !elem_of_cons. intuition (subst; tauto || congruence).
Qed.

(** On two files whose lines increase strictly, the body of the diff marks
    as context exactly the lines that are in both files, as removed exactly
    the lines that are only in the old file, and as added exactly the lines
    that are only in the new file. *)
Theorem computeDiff_sorted_lines
    (algo : DiffAlgorithm) (oldLines newLines : list string) (l : string) :
  ascending oldLines -> ascending newLines ->
  ((" " +:+ l) ∈ drop 2 (computeDiff algo oldLines newLines)
     <-> l ∈ oldLines /\ l ∈ newLines) /\
  (("-" +:+ l) ∈ drop 2 (computeDiff algo oldLines newLines)
     <-> l ∈ oldLines /\ l ∉ newLines) /\
  (("+" +:+ l) ∈ drop 2 (computeDiff algo oldLines newLines)
     <-> l ∈ newLines /\ l ∉ oldLines).
Proof.
  intros Ho Hn.
  assert (drop 2 (computeDiff algo oldLines newLines) = diffLoop oldLines newLines) as ->
    by (by destruct algo).
  by apply diffLoop_sorted.
Qed.

Lemma computeDiff_sorted_lines_witness :
  ((" " +:+ "bar") ∈ drop 2 (computeDiff SimpleDiff ["bar"; "baz"; "foo"] ["bar"; "foo"; "qux"])
     <-> "bar" ∈ ["bar"; "baz"; "foo"] /\ "bar" ∈ ["bar"; "foo"; "qux"]) /\
  (("-" +:+ "bar") ∈ drop 2 (computeDiff SimpleDiff ["bar"; "baz"; "foo"] ["bar"; "foo"; "qux"])
     <-> "bar" ∈ ["bar"; "baz"; "foo"] /\ "bar" ∉ ["bar"; "foo"; "qux"]) /\
  (("+" +:+ "bar") ∈ drop 2 (computeDiff SimpleDiff ["bar"; "baz"; "foo"] ["bar"; "foo"; "qux"])
     <-> "bar" ∈ ["bar"; "foo"; "qux"] /\ "bar" ∉ ["bar"; "baz"; "foo"]).
Proof.
  apply (computeDiff_sorted_lines SimpleDiff ["bar"; "baz"; "foo"] ["bar"; "foo"; "qux"] "bar").
  - repeat split; repeat constructor.
  - repeat split; repeat constructor.
Defined.

(** ** Line endings and the hash of text content *)

Lemma getlines_terminated (bytes : list ascii) :
  getlines "" false (terminated bytes) = getlines "" false bytes.
Proof.
  destruct bytes as [|c rest]; [reflexivity|]. unfold terminated.
  destruct (ends_with_newline (c :: rest)) eqn:E; [reflexivity|].
  apply getlines_final_newline; [done|by left].
Qed.

Lemma joinLines_getlines_terminated (bytes : list ascii) :
  list_ascii_of_string (joinLines (getlines "" false bytes)) = terminated bytes.
Proof.
  rewrite joinLines_getlines. destruct bytes as [|c rest]; [reflexivity|].
  unfold terminated. change (list_ascii_of_string "") with (@nil ascii).
  rewrite app_nil_l.
  destruct (ends_with_newline (c :: rest)); [apply app_nil_r|reflexivity].
Qed.

Lemma loaded_lines (p : string) (fs : FileSystem) (bytes : list ascii) :
  files fs !! p = Some bytes ->
  lines (TextFile_readContent (TextFile_new p) fs).1 = getlines "" false bytes.
Proof. intros H. unfold TextFile_readContent, ifstream_read. simpl. by rewrite H. Qed.

Lemma loaded_hash (p : string) (fs : FileSystem) (bytes : list ascii) :
  files fs !! p = Some bytes ->
  (getHash (AsText (TextFile_readContent (TextFile_new p) fs).1)).1
  = hexString (SHA256 (terminated bytes)).
Proof.
  intros H. unfold TextFile_readContent, ifstream_read. simpl. rewrite H.
  unfold getHash. simpl. unfold TextFile_computeHash. simpl.
  by rewrite joinLines_getlines_terminated.
Qed.

Lemma withCarriageReturns_one_line (ls : list string) :
  Forall one_line ls -> Forall one_line (withCarriageReturns ls).
Proof.
  intros H. apply Forall_fmap. eapply Forall_impl; [exact H|].
  intros l Hl. by apply one_line_snoc.
Qed.

Lemma withCarriageReturns_differ (ls : list string) :
  ls <> [] -> ls <> withCarriageReturns ls.
Proof.
  destruct ls as [|l ls]; [done|]. intros _ [= Hl _].
  apply (f_equal String.length) in Hl. rewrite length_append in Hl. simpl in Hl. lia.
Qed.

(** C7 (amended): two text files loaded into new objects have the same
    sequence of lines exactly when their bytes agree up to the line feed
    after the last line, and then both hashes are the digest of these bytes
    with the last line terminated.  The loader ends a line at a line feed
    only: of a text with at least one line, the file with LF line ends loads
    the lines and the file with CR LF line ends loads each line with a
    carriage return at its end, so the two never load the same sequence. *)
Theorem text_hash_up_to_final_line_feed
    (fs : FileSystem) (p q : string) (bytesP bytesQ : list ascii) :
  files fs !! p = Some bytesP ->
  files fs !! q = Some bytesQ ->
  (lines (TextFile_readContent (TextFile_new p) fs).1
   = lines (TextFile_readContent (TextFile_new q) fs).1
   <-> terminated bytesP = terminated bytesQ) /\
  (lines (TextFile_readContent (TextFile_new p) fs).1
   = lines (TextFile_readContent (TextFile_new q) fs).1 ->
   (getHash (AsText (TextFile_readContent (TextFile_new p) fs).1)).1
   = hexString (SHA256 (terminated bytesP)) /\
   (getHash (AsText (TextFile_readContent (TextFile_new q) fs).1)).1
   = hexString (SHA256 (terminated bytesP))) /\
  (forall ls,
     ls <> [] -> Forall one_line ls ->
     bytesP = list_ascii_of_string (joinLines ls) ->
     bytesQ = list_ascii_of_string (joinLines (withCarriageReturns ls)) ->
     lines (TextFile_readContent (TextFile_new p) fs).1 = ls /\
     lines (TextFile_readContent (TextFile_new q) fs).1 = withCarriageReturns ls /\
     lines (TextFile_readContent (TextFile_new p) fs).1
     <> lines (TextFile_readContent (TextFile_new q) fs).1).
Proof.
  intros Hp Hq.
  rewrite (loaded_lines p fs bytesP Hp), (loaded_lines q fs bytesQ Hq).
  rewrite (loaded_hash p fs bytesP Hp), (loaded_hash q fs bytesQ Hq).
  assert (getlines "" false bytesP = getlines "" false bytesQ
          <-> terminated bytesP = terminated bytesQ) as Hiff.
  { split; intros H.
    - by rewrite <- !joinLines_getlines_terminated, H.
    - by rewrite <- (getlines_terminated bytesP), H, getlines_terminated. }
  split; [exact Hiff|]. split.
  - intros H. apply Hiff in H. by rewrite H.
  - intros ls Hne Hls -> ->.
    rewrite !getlines_joinLines by (done || by apply withCarriageReturns_one_line).
    split; [done|]. split; [done|]. by apply withCarriageReturns_differ.
Qed.

Lemma text_hash_up_to_final_line_feed_witness :
  files disk !! "a.txt" <> files disk !! "b.txt" /\
  (lines (TextFile_readContent (TextFile_new "a.txt") disk).1
   = lines (TextFile_readContent (TextFile_new "b.txt") disk).1 ->
   (getHash (AsText (TextFile_readContent (TextFile_new "a.txt") disk).1)).1
   = hexString (SHA256 (terminated (list_ascii_of_string ("foo" +:+ LF +:+ "bar" +:+ LF)))) /\
   (getHash (AsText (TextFile_readContent (TextFile_new "b.txt") disk).1)).1
   = hexString (SHA256 (terminated (list_ascii_of_string ("foo" +:+ LF +:+ "bar" +:+ LF))))).
Proof.
  split; [vm_compute; discriminate|].
  apply (text_hash_up_to_final_line_feed disk "a.txt" "b.txt"
           (list_ascii_of_string ("foo" +:+ LF +:+ "bar" +:+ LF))
           (list_ascii_of_string ("foo" +:+ LF +:+ "bar"))).
  - vm_compute. reflexivity.
  - vm_compute. reflexivity.
Defined.

(** The text foo, bar with LF line ends in [a.txt] and with CR LF line ends
    in [w.txt]: the same text in two line-ending styles, and two hashes. *)
Lemma crlf_file_other_hash :
  files disk !! "a.txt" = Some (list_ascii_of_string (joinLines ["foo"; "bar"])) /\
  files disk !! "w.txt"
  = Some (list_ascii_of_string (joinLines (withCarriageReturns ["foo"; "bar"]))) /\
  (getHash (AsText (TextFile_readContent (TextFile_new "a.txt") disk).1)).1
  <> (getHash (AsText (TextFile_readContent (TextFile_new "w.txt") disk).1)).1.
Proof. vm_compute. repeat split; discriminate. Qed.
